(** * KnowledgeBank: the regression and classification notebooks

    A shallow embedding of the glue code of the two notebooks under
    [blog_posts/selection_and_shrinkage_comparison]: the prostate train/test
    split, the metric computations, the Best Subset Regression loop, the
    hyper-parameter grids handed to the library, and the spam train/test
    split.

    Numbers are rationals ([Q]) standing for the notebook's float64 values;
    the one IEEE special value the glue code can itself produce, the [nan]
    that [np.mean] returns on an empty array, is kept ([float]).  The
    statistical library (scikit-learn estimators, the random generator, the
    sorting routine of pandas) is not code of the repository: it enters as
    interfaces ([Estimator], [ColumnEstimator], [Classifier], [Sorter],
    [Library]) that the notebook code is written against, with small
    executable instances used to run the definitions. *)

From Stdlib Require Import String Bool Arith PeanoNat ZArith QArith Qabs Qround List.
From Stdlib Require Import DecimalString.
From Stdlib Require Import Lia Lqa Permutation Sorted.
Import ListNotations.

Local Open Scope string_scope.
Local Open Scope list_scope.
Local Open Scope nat_scope.

(* ================================================================== *)
(** * Python exceptions *)

Inductive exn : Type :=
| KeyError (key : string)
| AttributeError (attr : string)
| IndexError
| ValueError (msg : string)
| LinAlgError.

(** A fallible value: [inl e] is "raised [e]", [inr v] is "returned [v]". *)
Definition result (A : Type) : Type := (exn + A)%type.

Definition ok {A} (a : A) : result A := inr a.
Definition raise {A} (e : exn) : result A := inl e.

Definition rbind {A B} (r : result A) (k : A -> result B) : result B :=
  match r with
  | inl e => inl e
  | inr a => k a
  end.

Definition succeeds {A} (r : result A) : bool :=
  match r with inl _ => false | inr _ => true end.

(* ================================================================== *)
(** * Python built-ins *)

(** [range(a, b)] *)
Definition range (a b : nat) : list nat := seq a (b - a).

(** [l[:-1]] *)
Definition drop_last {A} (l : list A) : list A := removelast l.


(** [zip(xs, ys)] stops at the shorter argument, as [combine] does. *)
Definition zip {A B} (xs : list A) (ys : list B) : list (A * B) := combine xs ys.

(** A [dict] keeps its keys in insertion order; assigning to a key that is
    present replaces the value in place. *)
Definition dict (V : Type) : Type := list (string * V).

Fixpoint dict_set {V} (k : string) (v : V) (d : dict V) : dict V :=
  match d with
  | [] => [(k, v)]
  | (k', v') :: d' =>
      if String.eqb k k' then (k, v) :: d' else (k', v') :: dict_set k v d'
  end.

(** [dict(pairs)] *)
Definition dict_of {V} (pairs : list (string * V)) : dict V :=
  fold_left (fun d kv => dict_set (fst kv) (snd kv) d) pairs [].

Definition dict_keys {V} (d : dict V) : list string := map fst d.

(* ================================================================== *)
(** * itertools *)

Module Itertools.

(** [itertools.combinations(pool, r)]: the [r]-length subsequences of
    [pool], emitted in lexicographic order of positions. *)
Fixpoint combinations {A} (pool : list A) (r : nat) : list (list A) :=
  match r with
  | 0 => [[]]
  | S r' =>
      match pool with
      | [] => []
      | x :: rest => map (cons x) (combinations rest r') ++ combinations rest r
      end
  end.

End Itertools.

(* ================================================================== *)
(** * numpy *)

Module Numpy.

(** A float64 as the glue code sees it. *)
Inductive float : Type :=
| Fin (q : Q)
| NaN.

(** One-dimensional array. *)
Definition ndarray : Type := list Q.

(** Two-dimensional array of shape [(length rows, shape1)], row-major. *)
Record matrix : Type := mkMatrix {
  shape1 : nat;
  rows : list (list Q)
}.

Definition shape0 (X : matrix) : nat := length (rows X).

(** [X[:, subset]]: fancy indexing on the column axis; an index outside
    [range(X.shape[1])] raises [IndexError]. *)
Definition take_columns (X : matrix) (subset : list nat) : result matrix :=
  if forallb (fun j => j <? shape1 X) subset
  then ok (mkMatrix (length subset)
                    (map (fun row => map (fun j => nth j row 0%Q) subset) (rows X)))
  else raise IndexError.

(** [a - b] on one-dimensional arrays: elementwise on equal shapes, a
    length-one operand is broadcast, any other pair of shapes raises. *)
Definition np_sub (a b : ndarray) : result ndarray :=
  if length a =? length b then ok (map (fun p => (fst p - snd p)%Q) (combine a b))
  else match a, b with
       | [x], _ => ok (map (fun y => (x - y)%Q) b)
       | _, [y] => ok (map (fun x => (x - y)%Q) a)
       | _, _ => raise (ValueError "operands could not be broadcast together")
       end.

(** [a - B] for a one-dimensional [a] of shape [(n,)] and a two-dimensional
    [B] of shape [(m, k)]: the trailing axes are matched ([n = k], or one of
    them is 1 and is stretched), and [a] is repeated along the rows of [B]. *)
Definition np_sub_1d_2d (a : ndarray) (B : matrix) : result matrix :=
  if shape1 B =? length a then
    ok (mkMatrix (length a)
          (map (fun row => map (fun p => (fst p - snd p)%Q) (combine a row)) (rows B)))
  else if shape1 B =? 1 then
    ok (mkMatrix (length a)
          (map (fun row => map (fun x => (x - hd 0%Q row)%Q) a) (rows B)))
  else if length a =? 1 then
    ok (mkMatrix (shape1 B)
          (map (fun row => map (fun y => (hd 0%Q a - y)%Q) row) (rows B)))
  else raise (ValueError "operands could not be broadcast together").

(** [np.abs] *)
Definition np_abs (a : ndarray) : ndarray := map Qabs a.

(** [np.abs] on a two-dimensional array *)
Definition np_abs2 (X : matrix) : matrix := mkMatrix (shape1 X) (map np_abs (rows X)).

(** All entries of a two-dimensional array, row after row
    ([np.concatenate(X, axis=None)]). *)
Definition flatten (X : matrix) : ndarray := concat (rows X).

Definition np_sum (a : ndarray) : Q := fold_right Qplus 0%Q a.

(** [np.mean]: the sum over the number of entries; [nan] on an empty array
    (the notebook silences the warning). *)
Definition np_mean (a : ndarray) : float :=
  match a with
  | [] => NaN
  | _ => Fin (np_sum a / inject_Z (Z.of_nat (length a)))
  end.

(** [np.mean] of a two-dimensional array: the mean of all its entries. *)
Definition np_mean2 (X : matrix) : float := np_mean (flatten X).

(** Round to the nearest integer, ties to the even one. *)
Definition rint (q : Q) : Z :=
  let f := Qfloor q in
  let r := (q - inject_Z f)%Q in
  match (r ?= 1 # 2)%Q with
  | Lt => f
  | Gt => (f + 1)%Z
  | Eq => if Z.even f then f else (f + 1)%Z
  end.

(** [np.round(q, decimals)] on a finite value: scale, round to the nearest
    integer, scale back. *)
Definition round_decimals (q : Q) (decimals : nat) : Q :=
  let scale := (10 ^ Z.of_nat decimals)%Z in
  (inject_Z (rint (q * inject_Z scale)) / inject_Z scale)%Q.

(** [np.round(x, decimals)] *)
Definition np_round (x : float) (decimals : nat) : float :=
  match x with
  | NaN => NaN
  | Fin q => Fin (round_decimals q decimals)
  end.

(** IEEE comparison [x <= y]: false as soon as an operand is [nan]. *)
Definition float_le (x y : float) : Prop :=
  match x, y with
  | Fin a, Fin b => (a <= b)%Q
  | _, _ => False
  end.

(** Equality of values (not of representations). *)
Definition float_eq (x y : float) : Prop :=
  match x, y with
  | Fin a, Fin b => (a == b)%Q
  | _, _ => False
  end.

End Numpy.

(* ================================================================== *)
(** * pandas *)

Module Pandas.
Import Numpy.

Declare Scope result_scope.
Delimit Scope result_scope with result.
Notation "'let*' x ':=' r 'in' k" := (rbind r (fun x => k))
  (at level 10, x name, r at level 100, k at level 200) : result_scope.
Local Open Scope result_scope.

(** A column of a frame: numeric (float64 or int64) or object (strings). *)
Inductive column : Type :=
| NumCol (values : list Q)
| StrCol (values : list string).

(** A data frame: its number of rows and its named columns, in order.  The
    row labels play no part in the notebooks ([np.array] drops them). *)
Record DataFrame : Type := mkFrame {
  nrows : nat;
  cols : list (string * column)
}.

Definition column_length (c : column) : nat :=
  match c with
  | NumCol v => length v
  | StrCol v => length v
  end.

(** Every column of a frame has one entry per row. *)
Definition well_formed (d : DataFrame) : Prop :=
  Forall (fun nc => column_length (snd nc) = nrows d) (cols d).

(** [data.columns.tolist()] *)
Definition column_names (d : DataFrame) : list string := map fst (cols d).

(** The column called [name]: the first one, the names of a frame read by
    [read_csv] being distinct. *)
Fixpoint lookup (name : string) (cs : list (string * column)) : option column :=
  match cs with
  | [] => None
  | (n, c) :: cs' => if String.eqb name n then Some c else lookup name cs'
  end.

(** [data.name] *)
Definition getattr (d : DataFrame) (name : string) : result column :=
  match lookup name (cols d) with
  | Some c => ok c
  | None => raise (AttributeError name)
  end.

(** [data['name']] *)
Definition getitem (d : DataFrame) (name : string) : result column :=
  match lookup name (cols d) with
  | Some c => ok c
  | None => raise (KeyError name)
  end.

(** [series == value] against a string: entry by entry; a number never
    equals a string. *)
Definition eq_scalar (c : column) (value : string) : list bool :=
  match c with
  | StrCol v => map (fun x => String.eqb x value) v
  | NumCol v => map (fun _ => false) v
  end.

(** The entries of [l] at which the boolean mask is true. *)
Fixpoint select {A} (mask : list bool) (l : list A) : list A :=
  match mask, l with
  | b :: mask', x :: l' => if b then x :: select mask' l' else select mask' l'
  | _, _ => []
  end.

Definition select_column (mask : list bool) (c : column) : column :=
  match c with
  | NumCol v => NumCol (select mask v)
  | StrCol v => StrCol (select mask v)
  end.

(** [data[mask]]: boolean indexing of the rows. *)
Definition mask_rows (d : DataFrame) (mask : list bool) : DataFrame :=
  mkFrame (length (select mask (seq 0 (nrows d))))
          (map (fun nc => (fst nc, select_column mask (snd nc))) (cols d)).

Definition is_label (labels : list string) (name : string) : bool :=
  existsb (String.eqb name) labels.

(** [data.drop(labels, axis=1)]: [KeyError] when a label names no column. *)
Definition drop (d : DataFrame) (labels : list string) : result DataFrame :=
  match filter (fun l => negb (is_label (column_names d) l)) labels with
  | [] => ok (mkFrame (nrows d)
                      (filter (fun nc => negb (is_label labels (fst nc))) (cols d)))
  | missing :: _ => raise (KeyError missing)
  end.

(** The arrays handed to numpy and scikit-learn are numeric.  An object
    column makes an object array, which the first numeric use rejects; the
    model rejects it where the array is built. *)
Definition numeric_values (c : column) : result ndarray :=
  match c with
  | NumCol v => ok v
  | StrCol _ => raise (ValueError "could not convert string to float")
  end.

Fixpoint all_numeric (cs : list (string * column)) : result (list ndarray) :=
  match cs with
  | [] => ok []
  | (_, c) :: cs' =>
      let* v := numeric_values c in
      let* vs := all_numeric cs' in
      ok (v :: vs)
  end.

(** The first [n] rows of a table given by its columns. *)
Fixpoint transpose (n : nat) (columns : list ndarray) : list (list Q) :=
  match n with
  | 0 => []
  | S n' => map (hd 0%Q) columns :: transpose n' (map (@tl Q) columns)
  end.

(** [np.array(series)] *)
Definition np_array_series (c : column) : result ndarray := numeric_values c.

(** [np.array(frame)] *)
Definition np_array_frame (d : DataFrame) : result matrix :=
  let* columns := all_numeric (cols d) in
  ok (mkMatrix (length columns) (transpose (nrows d) columns)).

(** ** The train/test split of the prostate data *)

(** [np.array(data[data.train == flag]['lpsa'])] *)
Definition targets_of (data : DataFrame) (flag : string) : result ndarray :=
  let* train := getattr data "train" in
  let* lpsa := getitem (mask_rows data (eq_scalar train flag)) "lpsa" in
  np_array_series lpsa.

(** [np.array(data[data.train == flag].drop(['lpsa', 'train'], axis=1))] *)
Definition features_of (data : DataFrame) (flag : string) : result matrix :=
  let* train := getattr data "train" in
  let* kept := drop (mask_rows data (eq_scalar train flag)) ["lpsa"; "train"] in
  np_array_frame kept.

Record split : Type := mkSplit {
  y_train : ndarray;
  y_test : ndarray;
  X_train : matrix;
  X_test : matrix
}.

Definition train_test_split_prostate (data : DataFrame) : result split :=
  let* y_train := targets_of data "T" in
  let* y_test := targets_of data "F" in
  let* X_train := features_of data "T" in
  let* X_test := features_of data "F" in
  ok (mkSplit y_train y_test X_train X_test).

(** The frame without the rows whose 'train' entry is neither 'T' nor 'F'. *)
Definition flagged_rows_only (data : DataFrame) : result DataFrame :=
  let* train := getattr data "train" in
  ok (mask_rows data (map (fun tf => orb (fst tf) (snd tf))
                          (combine (eq_scalar train "T") (eq_scalar train "F")))).

End Pandas.

(* ================================================================== *)
(** * The library interfaces the notebooks are written against *)

Module Sklearn.
Import Numpy.

(** A scikit-learn regressor: [fit] and [predict] may raise; a fitted model
    exposes [intercept_] and [coef_].  The two laws are the documented
    shapes: one coefficient per training column, one prediction per row. *)
Record Estimator : Type := mkEstimator {
  model : Type;
  fit : matrix -> ndarray -> result model;
  predict : model -> matrix -> result ndarray;
  intercept_ : model -> Q;
  coef_ : model -> list Q;
  coef_shape : forall X y m, fit X y = inr m -> length (coef_ m) = shape1 X;
  predict_shape : forall m X yhat, predict m X = inr yhat -> length yhat = shape0 X
}.

(** [PLSRegression], alone or inside [GridSearchCV], in the library version
    the notebook ran on: the targets are kept as a column, so predictions
    are a two-dimensional array with one column, and so is [coef_] (the
    notebook flattens it with [np.concatenate(..., axis=None)]). *)
Record ColumnEstimator : Type := mkColumnEstimator {
  cmodel2 : Type;
  fit2 : matrix -> ndarray -> result cmodel2;
  predict2 : cmodel2 -> matrix -> result matrix;
  coef2_ : cmodel2 -> matrix;
  predict2_shape :
    forall m X P, predict2 m X = inr P ->
                  shape0 P = shape0 X /\ shape1 P = 1 /\
                  Forall (fun row => length row = 1) (rows P)
}.

End Sklearn.

(* ================================================================== *)
(** * Running a notebook cell: fit counter, standard output, exceptions *)

Module Cell.
Import Numpy Sklearn.

(** A row of the [results] data frame of the Best Subset Regression cell. *)
Record result_row : Type := mkRow {
  num_features : nat;
  features : list nat;
  MAE : float
}.

Inductive printed : Type :=
| PrintTable (head : list result_row)
| PrintMetric (label : string) (value : float)
| PrintText (line : string).

(** What a cell can change besides its variables: how many times it has
    called an estimator's [fit], and what it has printed. *)
Record world : Type := mkWorld {
  fit_calls : nat;
  stdout : list printed
}.

Definition M (A : Type) : Type := world -> result A * world.

Definition ret {A} (a : A) : M A := fun w => (inr a, w).

Definition bind {A B} (m : M A) (k : A -> M B) : M B :=
  fun w =>
    match m w with
    | (inl e, w') => (inl e, w')
    | (inr a, w') => k a w'
    end.

Declare Scope cell_scope.
Delimit Scope cell_scope with cell.
Notation "x <- m ;; k" := (bind m (fun x => k))
  (at level 61, m at next level, right associativity) : cell_scope.
Notation "m ;;; k" := (bind m (fun _ => k))
  (at level 61, right associativity) : cell_scope.
Local Open Scope cell_scope.

(** A pure, fallible expression evaluated inside a cell. *)
Definition lift {A} (r : result A) : M A := fun w => (r, w).

Definition print (p : printed) : M unit :=
  fun w => (inr tt, mkWorld (fit_calls w) (stdout w ++ [p])).

(** [Estimator(...).fit(X, y)] *)
Definition call_fit (E : Estimator) (X : matrix) (y : ndarray) : M (model E) :=
  fun w => (fit E X y, mkWorld (S (fit_calls w)) (stdout w)).

(** A [for] loop whose body updates one loop-carried variable. *)
Fixpoint for_each {A S} (items : list A) (body : A -> S -> M S) (acc : S) : M S :=
  match items with
  | [] => ret acc
  | x :: rest => acc' <- body x acc ;; for_each rest body acc'
  end.

(** [dict(zip(labels, np.round(np.concatenate((intercept_, coef_)), 3)))] *)
Definition coef_dict (E : Estimator) (labels : list string) (m : model E) : dict Q :=
  dict_of (zip labels (map (fun c => round_decimals c 3) (intercept_ E m :: coef_ E m))).

(** The labels every regression cell but two zips the coefficients with:
    [['Intercept'] + data.columns.tolist()[:-1]]. *)
Definition coef_labels (columns : list string) : list string :=
  "Intercept" :: drop_last columns.

(** ** The cells that fit one estimator and report its test error *)

Section RegressionCell.
Variable E : Estimator.
Variables (X_train : matrix) (y_train : ndarray) (X_test : matrix) (y_test : ndarray).

Definition regression_cell (name : string) (labels : list string)
  : M (float * dict Q) :=
  fitted <- call_fit E X_train y_train ;;
  prediction <- lift (predict E fitted X_test) ;;
  diff <- lift (np_sub y_test prediction) ;;
  let mae := np_mean (np_abs diff) in
  let coefs := coef_dict E labels fitted in
  print (PrintMetric (name ++ " MAE") (np_round mae 3)) ;;;
  print (PrintText (name ++ " coefficients:")) ;;;
  ret (mae, coefs).

End RegressionCell.

(** ** The Partial Least Squares cell *)

Definition call_fit2 (E : ColumnEstimator) (X : matrix) (y : ndarray) : M (cmodel2 E) :=
  fun w => (fit2 E X y, mkWorld (S (fit_calls w)) (stdout w)).

Definition pls_regression_cell (E : ColumnEstimator) (columns : list string)
  (X_train : matrix) (y_train : ndarray) (X_test : matrix) (y_test : ndarray)
  : M (float * dict Q) :=
  pls_model <- call_fit2 E X_train y_train ;;
  pls_prediction <- lift (predict2 E pls_model X_test) ;;
  diff <- lift (np_sub_1d_2d y_test pls_prediction) ;;
  let pls_mae := np_mean2 (np_abs2 diff) in
  let pls_coefs :=
    dict_of (zip (drop_last columns)
                 (map (fun c => round_decimals c 3) (flatten (coef2_ E pls_model)))) in
  print (PrintMetric "Partial Least Squares Regression MAE" (np_round pls_mae 3)) ;;;
  print (PrintText "Partial Least Squares Regression coefficients:") ;;;
  ret (pls_mae, pls_coefs).

(** ** pandas [sort_values]

    The default sorting kind is not stable, so the order of rows with equal
    keys is not fixed: the cell is written against any sorting routine that
    returns the same rows in non-decreasing key order, [nan] keys last. *)

Definition sort_key_leb (x y : float) : bool :=
  match x, y with
  | _, NaN => true
  | NaN, Fin _ => false
  | Fin a, Fin b => Qle_bool a b
  end.

Definition sort_key_le (x y : float) : Prop := sort_key_leb x y = true.

Definition MAE_le (r1 r2 : result_row) : Prop := sort_key_le (MAE r1) (MAE r2).

Record Sorter : Type := mkSorter {
  sort_values : list result_row -> list result_row;
  sort_values_perm : forall l, Permutation l (sort_values l);
  sort_values_sorted : forall l, Sorted MAE_le (sort_values l)
}.

(** ** The Best Subset Regression cell *)

Record best_subset_out (E : Estimator) : Type := mkOut {
  results : list result_row;
  best_subset_model : model E;
  best_subset_coefs : dict Q
}.
Arguments mkOut {E}.
Arguments results {E}.
Arguments best_subset_model {E}.
Arguments best_subset_coefs {E}.

Section BestSubset.
Variable sorter : Sorter.
Variable E : Estimator.
Variable columns : list string.
Variables (X_train : matrix) (y_train : ndarray) (X_test : matrix) (y_test : ndarray).

(** The body of the inner loop, for one [subset] of size [k]. *)
Definition best_subset_body (k : nat) (subset : list nat) (results : list result_row)
  : M (list result_row) :=
  X_sub <- lift (take_columns X_train subset) ;;
  linreg_model <- call_fit E X_sub y_train ;;
  X_test_sub <- lift (take_columns X_test subset) ;;
  linreg_prediction <- lift (predict E linreg_model X_test_sub) ;;
  diff <- lift (np_sub y_test linreg_prediction) ;;
  let linreg_mae := np_mean (np_abs diff) in
  ret (results ++ [mkRow k subset linreg_mae]).

Definition best_subset_loop : M (list result_row) :=
  let p := shape1 X_train in
  for_each (range 1 (p + 1))
    (fun k results =>
       for_each (Itertools.combinations (range 0 p) k) (best_subset_body k) results)
    [].

(** [results['features'][0]] and [results['MAE'][0]] after [reset_index()]:
    the first row in sorted order; [KeyError] on an empty frame. *)
Definition row0 (results : list result_row) : result result_row :=
  match results with
  | [] => raise (KeyError "0")
  | r :: _ => ok r
  end.

Definition best_subset_cell : M (best_subset_out E) :=
  results <- best_subset_loop ;;
  let results := sort_values sorter results in
  print (PrintTable (firstn 5 results)) ;;;
  best <- lift (row0 results) ;;
  X_best <- lift (take_columns X_train (features best)) ;;
  best_subset_model <- call_fit E X_best y_train ;;
  let best_subset_coefs := coef_dict E (coef_labels columns) best_subset_model in
  first <- lift (row0 results) ;;
  print (PrintMetric "Best Subset Regression MAE" (np_round (MAE first) 3)) ;;;
  print (PrintText "Best Subset Regression coefficients:") ;;;
  ret (mkOut results best_subset_model best_subset_coefs).

(** The test error the loop body records for [subset], as a value. *)
Definition subset_mae (subset : list nat) : result float :=
  rbind (take_columns X_train subset) (fun X_sub =>
  rbind (fit E X_sub y_train) (fun linreg_model =>
  rbind (take_columns X_test subset) (fun X_test_sub =>
  rbind (predict E linreg_model X_test_sub) (fun linreg_prediction =>
  rbind (np_sub y_test linreg_prediction) (fun diff =>
  ok (np_mean (np_abs diff))))))).

(** The subsets the nested loop visits, in order. *)
Definition enumerated (p : nat) : list (list nat) :=
  flat_map (fun k => Itertools.combinations (range 0 p) k) (range 1 (p + 1)).

End BestSubset.

End Cell.

(* ================================================================== *)
(** * Executable instances of the library interfaces *)

Module Instances.
Import Numpy Sklearn Cell.

(** ** A sorting routine: insertion sort on the [MAE] key *)

Fixpoint insert_row (r : result_row) (l : list result_row) : list result_row :=
  match l with
  | [] => [r]
  | r' :: l' =>
      if sort_key_leb (MAE r) (MAE r') then r :: l else r' :: insert_row r l'
  end.

Definition insertion_sort (l : list result_row) : list result_row :=
  fold_right insert_row [] l.

Lemma sort_key_leb_total x y : sort_key_leb x y = false -> sort_key_leb y x = true.
Proof.
  destruct x as [a|], y as [b|]; simpl; try congruence.
  intros H. apply Qle_bool_iff.
  destruct (Qlt_le_dec b a) as [Hlt | Hle].
  - now apply Qlt_le_weak.
  - apply Qle_bool_iff in Hle. congruence.
Qed.

Lemma insert_row_perm r l : Permutation (r :: l) (insert_row r l).
Proof.
  induction l as [| r' l IH]; simpl.
  - apply Permutation_refl.
  - destruct (sort_key_leb (MAE r) (MAE r')).
    + apply Permutation_refl.
    + eapply perm_trans; [apply perm_swap |].
      now apply perm_skip.
Qed.

Lemma insertion_sort_perm l : Permutation l (insertion_sort l).
Proof.
  induction l as [| r l IH]; simpl.
  - constructor.
  - eapply perm_trans; [apply perm_skip, IH | apply insert_row_perm].
Qed.

Lemma insert_row_hd r x l :
  MAE_le x r -> HdRel MAE_le x l -> HdRel MAE_le x (insert_row r l).
Proof.
  intros Hxr Hl. destruct l as [| r' l]; simpl.
  - now constructor.
  - destruct (sort_key_leb (MAE r) (MAE r')); constructor; trivial.
    now inversion Hl.
Qed.

Lemma insert_row_sorted r l : Sorted MAE_le l -> Sorted MAE_le (insert_row r l).
Proof.
  induction 1 as [| r' l Hs IH Hhd]; simpl.
  - repeat constructor.
  - destruct (sort_key_leb (MAE r) (MAE r')) eqn:Hcmp.
    + constructor; [now constructor | now constructor].
    + constructor; [exact IH |].
      apply insert_row_hd; [| exact Hhd].
      now apply sort_key_leb_total.
Qed.

Lemma insertion_sort_sorted l : Sorted MAE_le (insertion_sort l).
Proof.
  induction l as [| r l IH]; simpl.
  - constructor.
  - now apply insert_row_sorted.
Qed.

Definition insertion_sorter : Sorter :=
  mkSorter insertion_sort insertion_sort_perm insertion_sort_sorted.

(** ** A regressor: least squares through the origin, one column at a time

    Not the library's estimator: a small rational-valued regressor with the
    same interface, on which the cells can be evaluated. *)

Definition column (X : matrix) (j : nat) : ndarray :=
  map (fun row => nth j row 0%Q) (rows X).

Definition dot (a b : ndarray) : Q :=
  np_sum (map (fun p => (fst p * snd p)%Q) (combine a b)).

Definition marginal_fit (X : matrix) (y : ndarray) : result (list Q) :=
  if shape0 X =? 0 then raise (ValueError "Found array with 0 sample(s)")
  else if negb (shape0 X =? length y)
       then raise (ValueError "Found input variables with inconsistent numbers of samples")
  else ok (map (fun j => (dot (column X j) y / dot (column X j) (column X j))%Q)
               (seq 0 (shape1 X))).

Definition marginal_predict (coefs : list Q) (X : matrix) : result ndarray :=
  if shape0 X =? 0 then raise (ValueError "Found array with 0 sample(s)")
  else if negb (shape1 X =? length coefs)
       then raise (ValueError "X has a different number of features than the model")
  else ok (map (fun row => dot row coefs) (rows X)).

Lemma marginal_coef_shape X y m :
  marginal_fit X y = inr m -> length m = shape1 X.
Proof.
  unfold marginal_fit.
  destruct (shape0 X =? 0); [discriminate |].
  destruct (negb (shape0 X =? length y)); [discriminate |].
  intros H. injection H as <-. now rewrite length_map, length_seq.
Qed.

Lemma marginal_predict_shape (m : list Q) X yhat :
  marginal_predict m X = inr yhat -> length yhat = shape0 X.
Proof.
  unfold marginal_predict.
  destruct (shape0 X =? 0); [discriminate |].
  destruct (negb (shape1 X =? length m)); [discriminate |].
  intros H. injection H as <-. now rewrite length_map.
Qed.

Definition marginal_regressor : Estimator :=
  mkEstimator (list Q) marginal_fit marginal_predict (fun _ => 0%Q) (fun m => m)
              marginal_coef_shape marginal_predict_shape.

(** The same regressor behind the two-dimensional interface: predictions
    and coefficients as columns. *)
Definition as_column (a : ndarray) : matrix := mkMatrix 1 (map (fun x => [x]) a).

Definition column_predict (coefs : list Q) (X : matrix) : result matrix :=
  match marginal_predict coefs X with
  | inl e => inl e
  | inr yhat => ok (as_column yhat)
  end.

Lemma column_predict_shape (m : list Q) X P :
  column_predict m X = inr P ->
  shape0 P = shape0 X /\ shape1 P = 1 /\ Forall (fun row => length row = 1) (rows P).
Proof.
  unfold column_predict.
  destruct (marginal_predict m X) as [e | yhat] eqn:Hp; [discriminate |].
  intros H. injection H as <-. apply marginal_predict_shape in Hp.
  unfold shape0, as_column. simpl. rewrite length_map. repeat split; trivial.
  apply Forall_forall. intros row Hrow. apply in_map_iff in Hrow as (x & <- & _).
  reflexivity.
Qed.

Definition column_regressor : ColumnEstimator :=
  mkColumnEstimator (list Q) marginal_fit column_predict as_column column_predict_shape.

End Instances.

(* ================================================================== *)
(** * Facts about [itertools.combinations] *)

Module ItertoolsFacts.
Import Itertools.

(** [subseq s l]: [s] is obtained from [l] by deleting entries. *)
Inductive subseq {A} : list A -> list A -> Prop :=
| subseq_nil : subseq [] []
| subseq_skip x s l : subseq s l -> subseq s (x :: l)
| subseq_take x s l : subseq s l -> subseq (x :: s) (x :: l).

#[local] Hint Constructors subseq : core.

Lemma subseq_nil_l {A} (l : list A) : subseq [] l.
Proof. induction l; auto. Qed.

Lemma subseq_nil_r {A} (s : list A) : subseq s [] -> s = [].
Proof. now inversion 1. Qed.

Lemma subseq_In {A} (s l : list A) x : subseq s l -> In x s -> In x l.
Proof.
  induction 1 as [| y s l _ IH | y s l _ IH]; simpl; intros Hin; auto.
  destruct Hin as [-> | Hin]; auto.
Qed.

Lemma subseq_length {A} (s l : list A) : subseq s l -> length s <= length l.
Proof. induction 1; simpl; lia. Qed.

Lemma combinations_zero {A} (l : list A) : combinations l 0 = [[]].
Proof. now destruct l. Qed.

(** What [combinations] yields: exactly the subsequences of the given length. *)
Lemma in_combinations {A} (l s : list A) r :
  In s (combinations l r) <-> subseq s l /\ length s = r.
Proof.
  revert s r. induction l as [| x l IH]; intros s r.
  - destruct r; simpl.
    + split.
      * intros [<- | []]. auto.
      * intros [H _]. apply subseq_nil_r in H. auto.
    + split; [intros [] |].
      intros [H Hlen]. apply subseq_nil_r in H. now subst.
  - destruct r; simpl.
    + split.
      * intros [<- | []]. split; [apply subseq_nil_l | reflexivity].
      * intros [_ Hlen]. destruct s; [auto | discriminate].
    + rewrite in_app_iff, in_map_iff. split.
      * intros [(s' & <- & Hin) | Hin].
        -- apply IH in Hin as [Hs Hlen]. simpl. auto.
        -- apply IH in Hin as [Hs Hlen]. auto.
      * intros [Hs Hlen]. inversion Hs as [| y s' l' Hs' | y s' l' Hs']; subst.
        -- right. apply IH. auto.
        -- left. exists s'. split; [reflexivity |].
           apply IH. simpl in Hlen. auto.
Qed.

Lemma NoDup_map_cons {A} (x : A) (ls : list (list A)) :
  NoDup ls -> NoDup (map (cons x) ls).
Proof.
  induction 1 as [| s ls Hnin _ IH]; simpl; constructor; trivial.
  rewrite in_map_iff. intros (s' & Heq & Hin). now injection Heq as ->.
Qed.

Lemma NoDup_append {A} (l1 l2 : list A) :
  NoDup l1 -> NoDup l2 -> (forall a, In a l1 -> In a l2 -> False) -> NoDup (l1 ++ l2).
Proof.
  induction 1 as [| a l1 Hnin _ IH]; simpl; intros H2 Hdisj; trivial.
  constructor.
  - rewrite in_app_iff. intros [Hin | Hin]; [tauto | eapply Hdisj; eauto].
  - apply IH; trivial. intros b Hb1 Hb2. eapply Hdisj; eauto.
Qed.

(** No subsequence is yielded twice when the pool has no repeated entry. *)
Lemma NoDup_combinations {A} (l : list A) r : NoDup l -> NoDup (combinations l r).
Proof.
  intros Hl. revert r. induction Hl as [| x l Hnin _ IH]; intros r.
  - destruct r; simpl; repeat constructor. intros [].
  - destruct r; simpl.
    + repeat constructor. intros [].
    + apply NoDup_append.
      * apply NoDup_map_cons, IH.
      * apply IH.
      * intros s Hs1 Hs2. apply in_map_iff in Hs1 as (s' & <- & _).
        apply in_combinations in Hs2 as [Hs _].
        apply Hnin. eapply subseq_In; [exact Hs | now left].
Qed.

Lemma combinations_too_long {A} (l : list A) r : length l < r -> combinations l r = [].
Proof.
  revert r. induction l as [| x l IH]; intros r Hlt; destruct r; simpl in *; try lia; trivial.
  rewrite (IH r), (IH (S r)) by lia. reflexivity.
Qed.

(** The number of subsequences of sizes [0..m]. *)
Fixpoint count_upto {A} (l : list A) (m : nat) : nat :=
  match m with
  | 0 => length (combinations l 0)
  | S m' => count_upto l m' + length (combinations l m)
  end.

Lemma count_upto_cons {A} (x : A) l m :
  count_upto (x :: l) (S m) = count_upto l m + count_upto l (S m).
Proof.
  induction m as [| m IH].
  - simpl. rewrite length_app, length_map, !combinations_zero. simpl. lia.
  - change (count_upto (x :: l) (S (S m)))
      with (count_upto (x :: l) (S m) + length (combinations (x :: l) (S (S m)))).
    rewrite IH.
    change (combinations (x :: l) (S (S m)))
      with (map (cons x) (combinations l (S m)) ++ combinations l (S (S m))).
    rewrite length_app, length_map.
    change (count_upto l (S (S m)))
      with (count_upto l (S m) + length (combinations l (S (S m)))).
    change (count_upto l (S m)) with (count_upto l m + length (combinations l (S m))).
    lia.
Qed.

Lemma count_upto_all {A} (l : list A) m : length l <= m -> count_upto l m = 2 ^ length l.
Proof.
  revert m. induction l as [| x l IH]; intros m Hm.
  - induction m as [| m IHm]; simpl; trivial.
    simpl in IHm. rewrite IHm by lia. reflexivity.
  - destruct m as [| m]; simpl in Hm; [lia |].
    rewrite count_upto_cons.
    assert (Hstep : count_upto l (S m) = count_upto l m).
    { simpl. rewrite (combinations_too_long l (S m)) by lia. simpl. lia. }
    rewrite Hstep, IH by lia.
    simpl. lia.
Qed.

Lemma length_flat_map_sizes {A} (l : list A) a n :
  length (flat_map (fun k => combinations l k) (seq (S a) n)) + count_upto l a
  = count_upto l (a + n).
Proof.
  revert a. induction n as [| n IH]; intros a.
  - simpl. now rewrite Nat.add_0_r.
  - simpl flat_map. rewrite length_app.
    specialize (IH (S a)).
    change (count_upto l (S a))
      with (count_upto l a + length (combinations l (S a))) in IH.
    replace (a + S n) with (S a + n) by lia. lia.
Qed.

(** Strictly increasing lists of indices below [p] are the subsequences of
    [range(p)]. *)
Lemma subseq_seq (s : list nat) a n :
  subseq s (seq a n) <-> StronglySorted lt s /\ Forall (fun j => a <= j < a + n) s.
Proof.
  revert s a. induction n as [| n IH]; intros s a; simpl.
  - split.
    + intros H. apply subseq_nil_r in H. subst. split; constructor.
    + intros [_ Hb]. destruct s as [| x s]; [constructor |].
      inversion Hb; subst. lia.
  - split.
    + intros H. inversion H as [| y s' l' Hs | y s' l' Hs]; subst.
      * apply IH in Hs as [Hsort Hb]. split; trivial.
        eapply Forall_impl; [| exact Hb]. simpl. intros; lia.
      * apply IH in Hs as [Hsort Hb]. split.
        -- constructor; trivial.
           eapply Forall_impl; [| exact Hb]. simpl. intros; lia.
        -- constructor; [lia |].
           eapply Forall_impl; [| exact Hb]. simpl. intros; lia.
    + intros [Hsort Hb]. destruct s as [| x s]; [apply subseq_nil_l |].
      inversion Hsort as [| ? ? Hsort' Hgt]; subst.
      inversion Hb as [| ? ? Hx Hb']; subst.
      destruct (Nat.eq_dec x a) as [-> | Hne].
      * apply subseq_take. apply IH. split; trivial.
        rewrite Forall_forall in *. intros j Hj.
        specialize (Hgt j Hj). specialize (Hb' j Hj). simpl in *. lia.
      * apply subseq_skip. apply IH. split; trivial.
        constructor; [lia |].
        rewrite Forall_forall in *. intros j Hj.
        specialize (Hgt j Hj). specialize (Hb' j Hj). simpl in *. lia.
Qed.

Lemma NoDup_flat_map {A B} (f : A -> list B) (ks : list A) :
  NoDup ks ->
  (forall k, In k ks -> NoDup (f k)) ->
  (forall k k' b, In k ks -> In k' ks -> In b (f k) -> In b (f k') -> k = k') ->
  NoDup (flat_map f ks).
Proof.
  induction 1 as [| k ks Hnin _ IH]; simpl; intros Hf Hdisj; [constructor |].
  apply NoDup_append.
  - apply Hf. now left.
  - apply IH.
    + intros k' Hk'. apply Hf. now right.
    + intros k1 k2 b H1 H2. apply Hdisj; now right.
  - intros b Hb1 Hb2. apply in_flat_map in Hb2 as (k' & Hk' & Hb2).
    assert (k = k').
    { apply (Hdisj k k' b); trivial; [now left | now right]. }
    subst. contradiction.
Qed.

End ItertoolsFacts.

(* ================================================================== *)
(** * The Best Subset Regression cell: what the loop visits and costs *)

Module BestSubsetFacts.
Import Numpy Sklearn Cell Itertools ItertoolsFacts.

(** A subset of the column indices [0..p-1], written as Python writes it:
    the increasing list of its members. *)
Definition index_subset (p : nat) (S : list nat) : Prop :=
  StronglySorted lt S /\ Forall (fun j => j < p) S.

Lemma enumerated_unfold p :
  enumerated p = flat_map (fun k => combinations (seq 0 p) k) (seq 1 p).
Proof.
  unfold enumerated, range.
  replace (p + 1 - 1) with p by lia. now rewrite Nat.sub_0_r.
Qed.

Lemma in_enumerated p S : In S (enumerated p) <-> S <> [] /\ index_subset p S.
Proof.
  rewrite enumerated_unfold, in_flat_map. unfold index_subset. split.
  - intros (k & Hk & Hin). apply in_seq in Hk.
    apply in_combinations in Hin as [Hsub Hlen].
    apply subseq_seq in Hsub as [Hsort Hb]. split.
    + intros ->. simpl in Hlen. lia.
    + split; trivial. eapply Forall_impl; [| exact Hb]. simpl. intros; lia.
  - intros (Hne & Hsort & Hb).
    assert (Hsub : subseq S (seq 0 p)).
    { apply subseq_seq. split; trivial.
      eapply Forall_impl; [| exact Hb]. simpl. intros; lia. }
    exists (length S). split.
    + apply in_seq. apply subseq_length in Hsub. rewrite length_seq in Hsub.
      destruct S; [congruence | simpl in *; lia].
    + apply in_combinations. auto.
Qed.

Lemma NoDup_enumerated p : NoDup (enumerated p).
Proof.
  rewrite enumerated_unfold. apply NoDup_flat_map.
  - apply seq_NoDup.
  - intros k _. apply NoDup_combinations, seq_NoDup.
  - intros k k' S _ _ H1 H2.
    apply in_combinations in H1 as [_ H1]. apply in_combinations in H2 as [_ H2].
    congruence.
Qed.

Lemma length_enumerated p : length (enumerated p) = 2 ^ p - 1.
Proof.
  rewrite enumerated_unfold.
  pose proof (length_flat_map_sizes (seq 0 p) 0 p) as H.
  rewrite (count_upto_all (seq 0 p) (0 + p)) in H by (rewrite length_seq; lia).
  rewrite length_seq in H. simpl count_upto in H.
  rewrite combinations_zero in H. simpl in H. lia.
Qed.

(** ** Running loops *)

Lemma for_each_app {A S} (l1 l2 : list A) (body : A -> S -> M S) acc w :
  for_each (l1 ++ l2) body acc w =
  match for_each l1 body acc w with
  | (inl e, w') => (inl e, w')
  | (inr acc', w') => for_each l2 body acc' w'
  end.
Proof.
  revert acc w. induction l1 as [| x l1 IH]; intros acc w; simpl; trivial.
  unfold bind. destruct (body x acc w) as [[e | acc'] w']; trivial.
Qed.

Lemma for_each_map {A B S} (g : A -> B) (l : list A) (body : B -> S -> M S) acc w :
  for_each (map g l) body acc w = for_each l (fun x => body (g x)) acc w.
Proof.
  revert acc w. induction l as [| x l IH]; intros acc w; simpl; trivial.
  unfold bind. destruct (body (g x) acc w) as [[e | acc'] w']; trivial.
Qed.

(** A nested loop is the loop over the pairs (outer item, inner item). *)
Lemma for_each_nested {A B S} (f : A -> list B) (body : A -> B -> S -> M S) ks acc w :
  for_each ks (fun k res => for_each (f k) (body k) res) acc w =
  for_each (flat_map (fun k => map (pair k) (f k)) ks)
           (fun it res => body (fst it) (snd it) res) acc w.
Proof.
  revert acc w. induction ks as [| k ks IH]; intros acc w; simpl; trivial.
  rewrite for_each_app, for_each_map. unfold bind. simpl.
  destruct (for_each (f k) (body k) acc w) as [[e | acc'] w']; trivial.
Qed.

Lemma first_failure {A} (f : A -> bool) (l : list A) :
  (exists x, In x l /\ f x = false) ->
  exists pre x post, l = pre ++ x :: post /\ forallb f pre = true /\ f x = false.
Proof.
  induction l as [| a l IH]; intros (x & Hin & Hx); [destruct Hin |].
  destruct (f a) eqn:Ha.
  - destruct IH as (pre & y & post & -> & Hpre & Hy).
    { destruct Hin as [-> | Hin]; [congruence | eauto]. }
    exists (a :: pre), y, post. simpl. rewrite Ha, Hpre. auto.
  - exists [], a, l. auto.
Qed.

(** The pairs (size, subset) the nested loop runs its body on. *)
Definition loop_items (p : nat) : list (nat * list nat) :=
  flat_map (fun k => map (pair k) (combinations (range 0 p) k)) (range 1 (p + 1)).

Lemma loop_items_subsets p : map snd (loop_items p) = enumerated p.
Proof.
  unfold loop_items, enumerated.
  induction (range 1 (p + 1)) as [| k ks IH]; simpl; trivial.
  rewrite map_app, IH, map_map. simpl. now rewrite map_id.
Qed.

Lemma loop_items_sizes p it : In it (loop_items p) -> fst it = length (snd it).
Proof.
  unfold loop_items. rewrite in_flat_map. intros (k & _ & Hin).
  apply in_map_iff in Hin as (S & <- & Hin). simpl.
  apply in_combinations in Hin. now destruct Hin.
Qed.

Definition tick (w : world) : world := mkWorld (S (fit_calls w)) (stdout w).

Definition mae_or_nan (r : result float) : float :=
  match r with inr v => v | inl _ => NaN end.

Section Runs.
Variable E : Estimator.
Variables (X_train : matrix) (y_train : ndarray) (X_test : matrix) (y_test : ndarray).

Abbreviation body := (best_subset_body E X_train y_train X_test y_test).
Abbreviation mae_of := (subset_mae E X_train y_train X_test y_test).
Abbreviation item_body := (fun (it : nat * list nat) res => body (fst it) (snd it) res).

(** The row the loop appends for one item when its body succeeds. *)
Definition row_of (it : nat * list nat) : result_row :=
  mkRow (fst it) (snd it) (mae_or_nan (mae_of (snd it))).

Lemma body_run k S res w :
  body k S res w =
  match take_columns X_train S with
  | inl e => (inl e, w)
  | inr _ =>
      match mae_of S with
      | inl e => (inl e, tick w)
      | inr mae => (inr (res ++ [mkRow k S mae]), tick w)
      end
  end.
Proof.
  unfold best_subset_body, subset_mae, bind, lift, call_fit, ret, rbind, ok, tick.
  destruct (take_columns X_train S) as [e | Xs]; trivial.
  destruct (fit E Xs y_train) as [e | m]; trivial.
  destruct (take_columns X_test S) as [e | Xt]; trivial.
  destruct (predict E m Xt) as [e | yhat]; trivial.
  destruct (np_sub y_test yhat) as [e | d]; trivial.
Qed.

Lemma body_ok k S res w mae :
  mae_of S = inr mae -> body k S res w = (inr (res ++ [mkRow k S mae]), tick w).
Proof.
  intros H. rewrite body_run, H.
  unfold subset_mae, rbind in H.
  destruct (take_columns X_train S); [discriminate | reflexivity].
Qed.

(** Whatever happens, a run of the loop prints nothing and calls [fit] at
    most once per item. *)
Lemma loop_bound items acc w :
  stdout (snd (for_each items item_body acc w)) = stdout w /\
  fit_calls (snd (for_each items item_body acc w)) <= fit_calls w + length items.
Proof.
  revert acc w. induction items as [| it items IH]; intros acc w; simpl.
  - split; [reflexivity | lia].
  - unfold bind. rewrite body_run.
    destruct (take_columns X_train (snd it)); simpl; [split; [reflexivity | lia] |].
    destruct (mae_of (snd it)) as [e | mae]; simpl; [split; [reflexivity | lia] |].
    destruct (IH (acc ++ [mkRow (fst it) (snd it) mae]) (tick w)) as [Hout Hfit].
    simpl in *. split; [exact Hout | lia].
Qed.

(** When every item succeeds, the loop appends one row per item, in
    order, and has called [fit] exactly once per item. *)
Lemma loop_ok items acc w :
  forallb (fun it => succeeds (mae_of (snd it))) items = true ->
  for_each items item_body acc w =
  (inr (acc ++ map row_of items), mkWorld (fit_calls w + length items) (stdout w)).
Proof.
  revert acc w. induction items as [| it items IH]; intros acc w Hall; simpl in *.
  - rewrite app_nil_r, Nat.add_0_r. now destruct w.
  - apply andb_true_iff in Hall as [Hit Hall].
    destruct (mae_of (snd it)) as [e | mae] eqn:Hmae; [discriminate |].
    unfold bind. rewrite (body_ok _ _ _ _ _ Hmae), (IH _ _ Hall).
    unfold row_of at 2. rewrite Hmae. simpl.
    rewrite <- app_assoc. simpl. do 2 f_equal. lia.
Qed.

(** The loop stops at the first item whose body raises, with that
    exception. *)
Lemma loop_fail pre it post acc w e :
  forallb (fun it => succeeds (mae_of (snd it))) pre = true ->
  mae_of (snd it) = inl e ->
  exists w',
    for_each (pre ++ it :: post) item_body acc w = (inl e, w') /\
    stdout w' = stdout w /\
    fit_calls w' <= fit_calls w + length pre + 1.
Proof.
  intros Hpre Hit. rewrite for_each_app, (loop_ok _ _ _ Hpre). simpl.
  unfold bind. rewrite body_run, Hit.
  unfold subset_mae, rbind in Hit.
  destruct (take_columns X_train (snd it)) as [e' | Xs].
  - injection Hit as ->. eexists. split; [reflexivity |]. simpl. split; [reflexivity | lia].
  - eexists. split; [reflexivity |]. simpl. split; [reflexivity | lia].
Qed.

Lemma best_subset_loop_items w :
  best_subset_loop E X_train y_train X_test y_test w =
  for_each (loop_items (shape1 X_train)) item_body [] w.
Proof. unfold best_subset_loop, loop_items. apply for_each_nested. Qed.

End Runs.

End BestSubsetFacts.

(* ================================================================== *)
(** * Small inputs on which the cells are evaluated *)

Module Demo.
Import Numpy Sklearn Cell Instances.

Definition X_train : matrix := mkMatrix 3 [[1; 0; 2]; [2; 1; 0]; [3; 1; 1]]%Q.
Definition y_train : ndarray := [1; 2; 4]%Q.
Definition X_test : matrix := mkMatrix 3 [[1; 1; 1]; [2; 0; 1]]%Q.
Definition y_test : ndarray := [2; 3]%Q.

(** A test matrix that lacks the third column. *)
Definition X_test_short : matrix := mkMatrix 2 [[1; 1]; [2; 0]]%Q.

Definition feature_names : list string := ["lcavol"; "lweight"; "age"].
Definition columns : list string := feature_names ++ ["lpsa"; "train"].

Definition fresh : world := mkWorld 0 [].

(** A frame of the prostate layout: five rows, a row flagged 'X' among them. *)
Definition data : Pandas.DataFrame :=
  Pandas.mkFrame 5
    [("lcavol", Pandas.NumCol [1; 2; 3; 1; 2]%Q);
     ("lweight", Pandas.NumCol [0; 1; 1; 1; 0]%Q);
     ("age", Pandas.NumCol [2; 0; 1; 1; 1]%Q);
     ("lpsa", Pandas.NumCol [1; 2; 4; 2; 3]%Q);
     ("train", Pandas.StrCol ["T"; "T"; "X"; "F"; "T"])].

(** A spam-like table: two feature columns and a 0/1 label in the last
    column, ten rows. *)
Definition spam_txt : matrix :=
  mkMatrix 3 [[1; 0; 1]; [0; 2; 0]; [3; 1; 1]; [0; 0; 0]; [2; 2; 1];
              [1; 1; 0]; [4; 0; 1]; [0; 3; 0]; [5; 1; 1]; [2; 0; 1]]%Q.

Definition spam_X_train : matrix := mkMatrix 2 [[1; 0]; [0; 2]; [3; 1]; [0; 0]]%Q.
Definition spam_y_train : ndarray := [1; 0; 1; 1]%Q.
Definition spam_X_test : matrix := mkMatrix 2 [[2; 2]; [1; 1]; [4; 0]]%Q.
Definition spam_y_test : ndarray := [1; 0; 1]%Q.

End Demo.

(* ================================================================== *)
(** * The Best Subset Regression cell: enumeration, cost, failure *)

Module BestSubsetLoop.
Import Numpy Sklearn Cell Itertools ItertoolsFacts BestSubsetFacts Instances.

Section Loop.
Variable sorter : Sorter.
Variable E : Estimator.
Variable columns : list string.
Variables (X_train : matrix) (y_train : ndarray) (X_test : matrix) (y_test : ndarray).

Abbreviation p := (shape1 X_train).
Abbreviation mae_of := (subset_mae E X_train y_train X_test y_test).
Abbreviation loop := (best_subset_loop E X_train y_train X_test y_test).
Abbreviation cell :=
  (best_subset_cell sorter E columns X_train y_train X_test y_test).

Lemma all_items_succeed p :
  forallb (fun S => succeeds (mae_of S)) (enumerated p) = true ->
  forallb (fun it : nat * list nat => succeeds (mae_of (snd it))) (loop_items p) = true.
Proof.
  rewrite <- loop_items_subsets. rewrite !forallb_forall.
  intros H it Hin. apply H. now apply in_map.
Qed.

(** The cell, once its loop has run. *)
Lemma cell_run w :
  cell w =
  match loop w with
  | (inl e, w1) => (inl e, w1)
  | (inr rows, w1) =>
      let sorted := sort_values sorter rows in
      let w2 := mkWorld (fit_calls w1) (stdout w1 ++ [PrintTable (firstn 5 sorted)]) in
      match sorted with
      | [] => (inl (KeyError "0"), w2)
      | best :: _ =>
          match take_columns X_train (features best) with
          | inl e => (inl e, w2)
          | inr X_best =>
              match fit E X_best y_train with
              | inl e => (inl e, tick w2)
              | inr fitted =>
                  (inr (mkOut sorted fitted (coef_dict E (coef_labels columns) fitted)),
                   mkWorld (S (fit_calls w2))
                           (stdout w1 ++
                            [PrintTable (firstn 5 sorted);
                             PrintMetric "Best Subset Regression MAE" (np_round (MAE best) 3);
                             PrintText "Best Subset Regression coefficients:"]))
              end
          end
      end
  end.
Proof.
  unfold best_subset_cell, bind.
  destruct (loop w) as [[e | rows] w1]; trivial.
  unfold print, lift, call_fit, ret, row0, raise, ok, tick. simpl.
  destruct (sort_values sorter rows) as [| best sorted]; trivial.
  destruct (take_columns X_train (features best)) as [e | X_best]; trivial.
  simpl. destruct (fit E X_best y_train) as [e | fitted]; trivial.
  simpl. rewrite <- !app_assoc. reflexivity.
Qed.

(** What the loop does on [p] columns: it visits exactly the non-empty
    increasing lists of indices below [p], none of them twice, and leaves
    one row per visited subset, in visiting order, after one call of [fit]
    per subset. *)
Definition visits_each_nonempty_subset_once (w : world) : Prop :=
  (forall S, In S (enumerated p) <-> S <> [] /\ index_subset p S) /\
  NoDup (enumerated p) /\
  (forallb (fun S => succeeds (mae_of S)) (enumerated p) = true ->
   exists rows,
     loop w = (inr rows, mkWorld (fit_calls w + length (enumerated p)) (stdout w)) /\
     map features rows = enumerated p /\
     Forall (fun r => mae_of (features r) = inr (MAE r) /\
                      num_features r = length (features r)) rows).

(** C2 (as amended): the nested loop visits the non-empty subsets of the
    column indices [0..p-1], each exactly once: a list is visited if and
    only if it is a non-empty increasing list of indices below [p], no list
    is visited twice, and when every visited subset can be fitted and
    scored the loop leaves one row per visited subset, in visiting order,
    holding that subset, its size and its test MAE, after exactly one call
    of [fit] per subset. *)
Theorem C2_enumerates_nonempty_subsets_once w :
  visits_each_nonempty_subset_once w.
Proof.
  split; [apply in_enumerated |]. split; [apply NoDup_enumerated |]. intros Hall.
  exists (map (row_of E X_train y_train X_test y_test) (loop_items p)).
  split; [| split].
  - rewrite best_subset_loop_items.
    rewrite (loop_ok _ _ _ _ _ _ _ _ (all_items_succeed p Hall)). simpl.
    rewrite <- (loop_items_subsets p), length_map. reflexivity.
  - rewrite map_map. simpl. apply loop_items_subsets.
  - apply Forall_forall. intros r Hr.
    apply in_map_iff in Hr as (it & <- & Hit). simpl. split.
    + rewrite forallb_forall in Hall.
      assert (Hin : In (snd it) (enumerated p)).
      { rewrite <- loop_items_subsets. now apply in_map. }
      specialize (Hall _ Hin).
      destruct (mae_of (snd it)); [discriminate | reflexivity].
    + now apply loop_items_sizes with (p := p).
Qed.

(** C8: the cell is a total function of its inputs (it always ends, with a
    result or an exception); the loop visits [2^p - 1] subsets and calls
    [fit] at most once per visited subset, and the whole cell, which fits
    the winning subset once more, calls [fit] at most [2^p] times. *)
Theorem C8_terminates_within_two_to_the_p_fits w :
  length (enumerated p) = 2 ^ p - 1 /\
  (exists r w', loop w = (r, w') /\
                fit_calls w' <= fit_calls w + length (enumerated p)) /\
  (exists r w', cell w = (r, w') /\ fit_calls w' <= fit_calls w + 2 ^ p).
Proof.
  assert (Hlen : length (loop_items p) = length (enumerated p)).
  { now rewrite <- loop_items_subsets, length_map. }
  pose proof (length_enumerated p) as Hcount.
  assert (Hpos : 1 <= 2 ^ p).
  { pose proof (Nat.pow_nonzero 2 p). lia. }
  pose proof (loop_bound E X_train y_train X_test y_test (loop_items p) [] w)
    as [_ Hfit].
  rewrite <- best_subset_loop_items in Hfit.
  split; [exact Hcount |]. split.
  - destruct (loop w) as [r w1] eqn:Hloop. exists r, w1. simpl in Hfit.
    split; [reflexivity | lia].
  - rewrite cell_run.
    destruct (loop w) as [[e | rows] w1]; simpl in Hfit.
    + eexists _, _. split; [reflexivity | lia].
    + simpl. destruct (sort_values sorter rows) as [| best sorted].
      * eexists _, _. split; [reflexivity | simpl; lia].
      * destruct (take_columns X_train (features best)) as [e | X_best].
        -- eexists _, _. split; [reflexivity | simpl; lia].
        -- destruct (fit E X_best y_train) as [e | fitted];
             eexists _, _; (split; [reflexivity | simpl; lia]).
Qed.

(** The cell ends with the exception [e] raised at the first visited
    subset [S] that fails: nothing is returned, nothing is printed, and
    [fit] is called for no subset after [S]. *)
Definition ends_at_first_failure (w : world) : Prop :=
  exists e w' pre S post,
    cell w = (inl e, w') /\
    enumerated p = pre ++ S :: post /\
    forallb (fun S' => succeeds (mae_of S')) pre = true /\
    mae_of S = inl e /\
    stdout w' = stdout w /\
    fit_calls w' <= fit_calls w + length pre + 1.

(** C7: the cell catches nothing.  If fitting or scoring fails on some
    visited subset, the cell ends with the exception raised at the first
    such subset: it returns no table, no model and no coefficients, it
    prints nothing, and it calls [fit] for no later subset. *)
Theorem C7_first_failure_ends_the_cell w :
  (exists S, In S (enumerated p) /\ succeeds (mae_of S) = false) ->
  ends_at_first_failure w.
Proof.
  intros Hfail.
  assert (Hfail' : exists it, In it (loop_items p) /\
                              succeeds (mae_of (snd it)) = false).
  { destruct Hfail as (S & Hin & HS). rewrite <- loop_items_subsets in Hin.
    apply in_map_iff in Hin as (it & <- & Hit). eauto. }
  apply (first_failure (fun it : nat * list nat => succeeds (mae_of (snd it))))
    in Hfail' as (pre & it & post & Hsplit & Hpre & Hit).
  destruct (mae_of (snd it)) as [e | mae] eqn:Hmae; [| discriminate].
  destruct (loop_fail E X_train y_train X_test y_test pre it post [] w e Hpre Hmae)
    as (w' & Hrun & Hout & Hfit).
  exists e, w', (map snd pre), (snd it), (map snd post).
  split; [| split; [| split; [| split; [| split]]]]; trivial.
  - rewrite cell_run, best_subset_loop_items, Hsplit, Hrun. reflexivity.
  - rewrite <- loop_items_subsets, Hsplit, map_app. reflexivity.
  - rewrite forallb_forall in *. intros S' HS'.
    apply in_map_iff in HS' as (it' & <- & Hit'). now apply Hpre.
  - now rewrite length_map.
Qed.

End Loop.

(** The amended claim on the demonstration data: seven subsets of three
    columns, seven rows, seven fits. *)
Lemma C2_enumerates_nonempty_subsets_once_witness :
  visits_each_nonempty_subset_once marginal_regressor
    Demo.X_train Demo.y_train Demo.X_test Demo.y_test Demo.fresh /\
  exists rows,
    best_subset_loop marginal_regressor Demo.X_train Demo.y_train Demo.X_test Demo.y_test
      Demo.fresh = (inr rows, mkWorld 7 []) /\
    map features rows = [[0]; [1]; [2]; [0; 1]; [0; 2]; [1; 2]; [0; 1; 2]].
Proof.
  pose proof (C2_enumerates_nonempty_subsets_once marginal_regressor
                Demo.X_train Demo.y_train Demo.X_test Demo.y_test Demo.fresh) as H.
  split; [exact H |].
  destruct H as (_ & _ & H).
  assert (Hall : forallb
                   (fun S => succeeds (subset_mae marginal_regressor Demo.X_train
                                         Demo.y_train Demo.X_test Demo.y_test S))
                   (enumerated (shape1 Demo.X_train)) = true)
    by (vm_compute; reflexivity).
  destruct (H Hall) as (rows & Hrun & Hfeatures & _).
  exists rows. split; [exact Hrun | exact Hfeatures].
Defined.

(** C2 as stated fails: the empty set is a subset of the column indices, and
    the loop, which starts at size 1, never visits it. *)
Lemma C2_empty_subset_is_not_visited :
  ~ (forall S, index_subset (shape1 Demo.X_train) S ->
               In S (enumerated (shape1 Demo.X_train))).
Proof.
  intros H. specialize (H []).
  assert (Hin : In [] (enumerated (shape1 Demo.X_train))).
  { apply H. split; constructor. }
  apply in_enumerated in Hin. tauto.
Qed.

(** The claim on a test matrix that lacks the third column: scoring fails
    with [IndexError] at the subset [[2]], the third one visited. *)
Lemma C7_first_failure_ends_the_cell_witness :
  subset_mae marginal_regressor Demo.X_train Demo.y_train Demo.X_test_short Demo.y_test [2]
  = inl IndexError /\
  ends_at_first_failure insertion_sorter marginal_regressor Demo.columns
    Demo.X_train Demo.y_train Demo.X_test_short Demo.y_test Demo.fresh.
Proof.
  split; [reflexivity |].
  apply C7_first_failure_ends_the_cell.
  exists [2]. split; [vm_compute; tauto | reflexivity].
Defined.

End BestSubsetLoop.

(* ================================================================== *)
(** * The Best Subset Regression cell: the winner and its labels *)

Module BestSubsetWinner.
Import Numpy Sklearn Cell Itertools ItertoolsFacts BestSubsetFacts BestSubsetLoop.

Lemma sort_key_le_trans x y z : sort_key_le x y -> sort_key_le y z -> sort_key_le x z.
Proof.
  unfold sort_key_le. destruct x as [a|], y as [b|], z as [c|]; simpl; try congruence.
  rewrite !Qle_bool_iff. apply Qle_trans.
Qed.

Lemma sort_key_le_refl x : sort_key_le x x.
Proof.
  unfold sort_key_le. destruct x as [a|]; simpl; trivial.
  apply Qle_bool_iff, Qle_refl.
Qed.

(** The first row of a sorted frame has the least key. *)
Lemma sorted_head_least best rows r :
  Sorted MAE_le (best :: rows) -> In r (best :: rows) -> MAE_le best r.
Proof.
  intros Hs Hin. apply Sorted_StronglySorted in Hs.
  - inversion Hs as [| ? ? _ Hall]; subst. destruct Hin as [<- | Hin].
    + apply sort_key_le_refl.
    + rewrite Forall_forall in Hall. now apply Hall.
  - intros x y z. apply sort_key_le_trans.
Qed.

Lemma sort_key_le_finite a b : sort_key_le (Fin a) (Fin b) -> float_le (Fin a) (Fin b).
Proof. unfold sort_key_le. simpl. now rewrite Qle_bool_iff. Qed.

(** The mean absolute difference of two arrays, entry by entry. *)
Fixpoint sum_abs_diff (y yhat : ndarray) : Q :=
  match y, yhat with
  | a :: y', b :: yhat' => (Qabs (a - b) + sum_abs_diff y' yhat')%Q
  | _, _ => 0%Q
  end.

Definition mean_abs_diff (y yhat : ndarray) : Q :=
  (sum_abs_diff y yhat / inject_Z (Z.of_nat (length y)))%Q.

Lemma np_sum_abs_diff y yhat :
  np_sum (np_abs (map (fun p => (fst p - snd p)%Q) (combine y yhat))) = sum_abs_diff y yhat.
Proof.
  revert yhat. induction y as [| a y IH]; intros [| b yhat]; simpl; trivial.
  now rewrite <- IH.
Qed.

(** On arrays of one common, non-zero length the notebook's expression
    [np.mean(np.abs(y - yhat))] is the mean absolute difference. *)
Lemma mae_expression y yhat :
  length yhat = length y -> y <> [] ->
  rbind (np_sub y yhat) (fun diff => ok (np_mean (np_abs diff)))
  = inr (Fin (mean_abs_diff y yhat)).
Proof.
  intros Hlen Hne. unfold np_sub. rewrite Hlen, Nat.eqb_refl. simpl. unfold ok.
  unfold np_mean, mean_abs_diff.
  rewrite <- np_sum_abs_diff.
  assert (Hl : length (np_abs (map (fun p => (fst p - snd p)%Q) (combine y yhat)))
               = length y).
  { unfold np_abs. rewrite !length_map, length_combine. lia. }
  destruct (np_abs (map (fun p => (fst p - snd p)%Q) (combine y yhat))) as [| d ds] eqn:Hd.
  - destruct y; [congruence | discriminate].
  - now rewrite Hl.
Qed.

Lemma take_columns_shape0 X S X' : take_columns X S = inr X' -> shape0 X' = shape0 X.
Proof.
  unfold take_columns. destruct (forallb _ S); [| discriminate].
  intros H. injection H as <-. unfold shape0. simpl. apply length_map.
Qed.

Lemma take_columns_shape1 X S X' : take_columns X S = inr X' -> shape1 X' = length S.
Proof.
  unfold take_columns. destruct (forallb _ S); [| discriminate].
  intros H. now injection H as <-.
Qed.

(** Inserting pairs with distinct keys into a [dict] keeps them as they are. *)
Lemma dict_set_fresh {V} k (v : V) d :
  ~ In k (dict_keys d) -> dict_set k v d = d ++ [(k, v)].
Proof.
  induction d as [| [k' v'] d IH]; simpl; intros Hnin; trivial.
  destruct (String.eqb_spec k k') as [-> | Hne]; [tauto |].
  rewrite IH; tauto.
Qed.

Lemma dict_of_distinct_keys {V} (pairs : list (string * V)) :
  NoDup (map fst pairs) -> dict_of pairs = pairs.
Proof.
  unfold dict_of. change pairs with ([] ++ pairs) at 1 3.
  generalize (@nil (string * V)) as d. induction pairs as [| [k v] pairs IH]; intros d Hnd.
  - simpl. now rewrite app_nil_r.
  - simpl. rewrite dict_set_fresh.
    + rewrite IH; rewrite <- app_assoc; trivial.
    + rewrite map_app in Hnd. simpl in Hnd. apply NoDup_remove_2 in Hnd.
      unfold dict_keys. rewrite in_app_iff in Hnd. tauto.
Qed.

(** An increasing list that contains every index below its length is the
    prefix [0, 1, ..., k-1]. *)
Lemma increasing_full_is_prefix S a :
  StronglySorted lt S -> Forall (fun j => a <= j) S ->
  (forall j, a <= j < a + length S -> In j S) -> S = seq a (length S).
Proof.
  revert a. induction S as [| x S IH]; intros a Hs Hlow Hfull; trivial.
  inversion Hs as [| ? ? Hs' Hgt]; subst. inversion Hlow as [| ? ? Hx Hlow']; subst.
  rewrite Forall_forall in Hgt, Hlow'.
  assert (x = a) as ->.
  { destruct (Hfull a) as [-> | Hin]; [simpl; lia | reflexivity |].
    specialize (Hgt a Hin). lia. }
  simpl. f_equal. apply IH; trivial.
  - apply Forall_forall. intros j Hj. specialize (Hgt j Hj). lia.
  - intros j Hj. destruct (Hfull j) as [<- | Hin]; [simpl; lia | lia | exact Hin].
Qed.

Lemma missing_index (S : list nat) k :
  (forall j, j < k -> In j S) \/ (exists j, j < k /\ ~ In j S).
Proof.
  induction k as [| k [IH | (j & Hj & Hnin)]].
  - left. intros j Hj. lia.
  - destruct (in_dec Nat.eq_dec k S) as [Hin | Hnin].
    + left. intros j Hj. destruct (Nat.eq_dec j k) as [-> | Hne]; [exact Hin |].
      apply IH. lia.
    + right. exists k. split; [lia | exact Hnin].
  - right. exists j. split; [lia | exact Hnin].
Qed.

Lemma not_prefix_misses_index S :
  StronglySorted lt S -> S <> seq 0 (length S) ->
  exists j, j < length S /\ ~ In j S.
Proof.
  intros Hs Hne. destruct (missing_index S (length S)) as [Hfull | Hmiss]; trivial.
  exfalso. apply Hne. apply increasing_full_is_prefix; trivial.
  - apply Forall_forall. intros; lia.
  - intros j Hj. apply Hfull. lia.
Qed.

End BestSubsetWinner.

(* ================================================================== *)
(** * The Best Subset Regression cell: selection by held-out error *)

Module BestSubsetSelection.
Import Numpy Sklearn Cell Itertools ItertoolsFacts BestSubsetFacts BestSubsetLoop.
Import BestSubsetWinner Instances.

Section Selection.
Variable sorter : Sorter.
Variable E : Estimator.
Variable columns : list string.
Variables (X_train : matrix) (y_train : ndarray) (X_test : matrix) (y_test : ndarray).

Abbreviation p := (shape1 X_train).
Abbreviation mae_of := (subset_mae E X_train y_train X_test y_test).
Abbreviation cell :=
  (best_subset_cell sorter E columns X_train y_train X_test y_test).
Abbreviation recorded := (map (row_of E X_train y_train X_test y_test) (loop_items p)).

Lemma subset_mae_inv S mae :
  mae_of S = inr mae ->
  exists X_sub fitted X_test_sub yhat,
    take_columns X_train S = inr X_sub /\
    fit E X_sub y_train = inr fitted /\
    take_columns X_test S = inr X_test_sub /\
    predict E fitted X_test_sub = inr yhat /\
    rbind (np_sub y_test yhat) (fun diff => ok (np_mean (np_abs diff))) = inr mae.
Proof.
  unfold subset_mae, rbind at 1 2 3 4.
  destruct (take_columns X_train S) as [e | X_sub] eqn:H1; [discriminate |].
  destruct (fit E X_sub y_train) as [e | fitted] eqn:H2; [discriminate |].
  destruct (take_columns X_test S) as [e | X_test_sub] eqn:H3; [discriminate |].
  destruct (predict E fitted X_test_sub) as [e | yhat] eqn:H4; [discriminate |].
  intros H. exists X_sub, fitted, X_test_sub, yhat. repeat split; trivial.
Qed.

(** With as many test targets as test rows, and at least one, a recorded
    error is a number: the mean absolute difference between [y_test] and
    the predictions. *)
Lemma subset_mae_finite S mae :
  shape0 X_test = length y_test -> y_test <> [] ->
  mae_of S = inr mae ->
  exists yhat, length yhat = length y_test /\ mae = Fin (mean_abs_diff y_test yhat).
Proof.
  intros Hshape Hne H.
  apply subset_mae_inv in H as (X_sub & fitted & X_test_sub & yhat & _ & _ & Ht & Hp & H).
  apply predict_shape in Hp. apply take_columns_shape0 in Ht.
  assert (Hlen : length yhat = length y_test) by congruence.
  rewrite (mae_expression _ _ Hlen Hne) in H. injection H as <-. eauto.
Qed.

Lemma in_recorded r :
  forallb (fun S => succeeds (mae_of S)) (enumerated p) = true ->
  In r recorded ->
  In (features r) (enumerated p) /\ mae_of (features r) = inr (MAE r).
Proof.
  intros Hall Hr. apply in_map_iff in Hr as (it & <- & Hit). simpl.
  assert (Hin : In (snd it) (enumerated p)).
  { rewrite <- loop_items_subsets. now apply in_map. }
  split; trivial.
  rewrite forallb_forall in Hall. specialize (Hall _ Hin).
  destruct (mae_of (snd it)); [discriminate | reflexivity].
Qed.

Lemma recorded_of_subset S mae :
  In S (enumerated p) -> mae_of S = inr mae ->
  exists r, In r recorded /\ features r = S /\ MAE r = mae.
Proof.
  intros Hin Hm. rewrite <- loop_items_subsets in Hin.
  apply in_map_iff in Hin as (it & <- & Hit).
  exists (row_of E X_train y_train X_test y_test it). split; [now apply in_map |].
  simpl. now rewrite Hm.
Qed.

(** When there is a column and every visited subset can be fitted and
    scored, the cell returns: the sorted frame has a first row, that row
    was recorded by the loop, and its subset is fitted again. *)
Lemma cell_succeeds w :
  0 < p ->
  forallb (fun S => succeeds (mae_of S)) (enumerated p) = true ->
  exists best rest X_best fitted,
    sort_values sorter recorded = best :: rest /\
    In best recorded /\
    take_columns X_train (features best) = inr X_best /\
    fit E X_best y_train = inr fitted /\
    cell w =
    (inr (mkOut (best :: rest) fitted (coef_dict E (coef_labels columns) fitted)),
     mkWorld (S (fit_calls w + length (enumerated p)))
             (stdout w ++
              [PrintTable (firstn 5 (best :: rest));
               PrintMetric "Best Subset Regression MAE" (np_round (MAE best) 3);
               PrintText "Best Subset Regression coefficients:"])).
Proof.
  intros Hp Hall.
  pose proof (sort_values_perm sorter recorded) as Hperm.
  destruct (sort_values sorter recorded) as [| best rest] eqn:Hsorted.
  { apply Permutation_length in Hperm. simpl in Hperm.
    rewrite length_map in Hperm.
    assert (Hl : length (loop_items p) = length (enumerated p)).
    { now rewrite <- loop_items_subsets, length_map. }
    rewrite Hl, length_enumerated in Hperm.
    assert (2 <= 2 ^ p).
    { destruct (shape1 X_train) as [| n]; [lia |].
      rewrite Nat.pow_succ_r'. pose proof (Nat.pow_nonzero 2 n). lia. }
    lia. }
  assert (Hbest : In best recorded).
  { eapply Permutation_in; [apply Permutation_sym, Hperm | now left]. }
  destruct (in_recorded best Hall Hbest) as [_ Hmae].
  destruct (subset_mae_inv _ _ Hmae) as (X_best & fitted & _ & _ & Hx & Hf & _).
  exists best, rest, X_best, fitted. repeat (split; trivial).
  rewrite cell_run, best_subset_loop_items.
  rewrite (loop_ok _ _ _ _ _ _ _ _ (all_items_succeed _ _ _ _ _ _ Hall)).
  simpl. rewrite Hsorted, Hx, Hf. simpl.
  rewrite <- (loop_items_subsets p), length_map. reflexivity.
Qed.

(** What the cell does when it returns: [best] heads the sorted frame,
    its subset was visited, no visited subset has a smaller test MAE, the
    returned model is the fit on the columns of that subset, and the
    printed metric is that MAE rounded to three decimals. *)
Definition selects_least_test_error (w : world) : Prop :=
  exists out w' best,
    cell w = (inr out, w') /\
    row0 (results out) = inr best /\
    In (features best) (enumerated p) /\
    mae_of (features best) = inr (MAE best) /\
    (forall S mae, In S (enumerated p) -> mae_of S = inr mae ->
                   float_le (MAE best) mae) /\
    (exists X_best, take_columns X_train (features best) = inr X_best /\
                    fit E X_best y_train = inr (best_subset_model out)) /\
    stdout w' =
      stdout w ++
      [PrintTable (firstn 5 (results out));
       PrintMetric "Best Subset Regression MAE" (np_round (MAE best) 3);
       PrintText "Best Subset Regression coefficients:"].

(** C1 (as amended): Best Subset Regression selects by held-out error.
    On data with at least one feature column and a non-empty test set, when
    every visited subset can be fitted and scored, the subset whose columns
    the final [best_subset_model] is fitted on has a test-set mean absolute
    error no greater than that of any visited subset, and the printed
    'Best Subset Regression MAE' is that least error rounded to three
    decimals. *)
Theorem C1_selects_least_test_error w :
  0 < p ->
  shape0 X_test = length y_test ->
  y_test <> [] ->
  forallb (fun S => succeeds (mae_of S)) (enumerated p) = true ->
  selects_least_test_error w.
Proof.
  intros Hp Hshape Hne Hall.
  destruct (cell_succeeds w Hp Hall)
    as (best & rest & X_best & fitted & Hsorted & Hbest & Hx & Hf & Hrun).
  destruct (in_recorded best Hall Hbest) as [Hin Hmae].
  eexists _, _, best. split; [exact Hrun |]. simpl.
  split; [reflexivity |]. split; [exact Hin |]. split; [exact Hmae |].
  split; [| split; [eauto | reflexivity]].
  intros S mae HS Hm.
  destruct (recorded_of_subset S mae HS Hm) as (r & Hr & _ & <-).
  assert (Hle : MAE_le best r).
  { apply (sorted_head_least best rest).
    - rewrite <- Hsorted. apply sort_values_sorted.
    - rewrite <- Hsorted.
      eapply Permutation_in; [apply sort_values_perm | exact Hr]. }
  destruct (subset_mae_finite _ _ Hshape Hne Hmae) as (yb & _ & Hb).
  destruct (subset_mae_finite _ _ Hshape Hne Hm) as (yr & _ & Hr').
  unfold MAE_le in Hle. rewrite Hb, Hr' in *. now apply sort_key_le_finite.
Qed.

End Selection.

(** The claim at a concrete input: three feature columns, two test rows. *)
Lemma C1_selects_least_test_error_witness :
  0 < shape1 Demo.X_train /\
  selects_least_test_error insertion_sorter marginal_regressor Demo.columns
    Demo.X_train Demo.y_train Demo.X_test Demo.y_test Demo.fresh.
Proof.
  split; [vm_compute; lia |].
  apply C1_selects_least_test_error.
  - vm_compute; lia.
  - reflexivity.
  - discriminate.
  - vm_compute; reflexivity.
Defined.

(** C1 as stated fails in its last part: on the demonstration data the least
    test MAE is 5110/9800 and the one metric line the cell prints shows
    0.521, which is a different number. *)
Lemma C1_printed_metric_is_not_the_least_mae :
  exists out w' best,
    best_subset_cell insertion_sorter marginal_regressor Demo.columns
      Demo.X_train Demo.y_train Demo.X_test Demo.y_test Demo.fresh = (inr out, w') /\
    row0 (results out) = inr best /\
    MAE best = Fin (5110 # 9800) /\
    (forall v, In (PrintMetric "Best Subset Regression MAE" v) (stdout w') ->
               v = Fin (521 # 1000)) /\
    In (PrintMetric "Best Subset Regression MAE" (Fin (521 # 1000))) (stdout w') /\
    ~ float_eq (Fin (521 # 1000)) (MAE best).
Proof.
  eexists _, _, _. split; [vm_compute; reflexivity |].
  split; [reflexivity |]. split; [reflexivity |]. split; [| split].
  - simpl. intros v [H | [H | [H | []]]]; try discriminate.
    now injection H as <-.
  - simpl. auto.
  - simpl. intros H. vm_compute in H. discriminate.
Qed.

End BestSubsetSelection.

(* ================================================================== *)
(** * The Best Subset Regression cell: how the coefficients are labelled *)

Module BestSubsetLabels.
Import Numpy Sklearn Cell Itertools ItertoolsFacts BestSubsetFacts BestSubsetLoop.
Import BestSubsetWinner BestSubsetSelection Instances.

Lemma NoDup_zip_keys {A B} (l1 : list A) (l2 : list B) :
  NoDup l1 -> NoDup (map fst (zip l1 l2)).
Proof.
  intros Hnd. revert l2. induction Hnd as [| a l1 Hnin _ IH]; intros [| b l2]; simpl;
    try constructor.
  - intros Hin. apply in_map_iff in Hin as ([a' b'] & Heq & Hin). simpl in Heq. subst.
    apply in_combine_l in Hin. contradiction.
  - apply IH.
Qed.

Lemma in_zip_nth {A B} (l1 : list A) (l2 : list B) i a b :
  nth_error l1 i = Some a -> nth_error l2 i = Some b -> In (a, b) (zip l1 l2).
Proof.
  revert l1 l2. induction i as [| i IH]; intros [| a' l1] [| b' l2]; simpl; try discriminate.
  - intros H1 H2. injection H1 as ->. injection H2 as ->. now left.
  - intros H1 H2. right. now apply IH.
Qed.

Lemma drop_last_two {A} (l : list A) a b : drop_last (l ++ [a; b]) = l ++ [a].
Proof.
  unfold drop_last. change (l ++ [a; b]) with (l ++ [a] ++ [b]).
  rewrite app_assoc. apply removelast_last.
Qed.

Section Labels.
Variable sorter : Sorter.
Variable E : Estimator.
Variable feature_names : list string.
Variables (X_train : matrix) (y_train : ndarray) (X_test : matrix) (y_test : ndarray).

Abbreviation p := (shape1 X_train).
Abbreviation columns := (feature_names ++ ["lpsa"; "train"]).
Abbreviation mae_of := (subset_mae E X_train y_train X_test y_test).
Abbreviation cell :=
  (best_subset_cell sorter E columns X_train y_train X_test y_test).
Abbreviation rounded m :=
  (map (fun c => round_decimals c 3) (intercept_ E m :: coef_ E m)).

(** What the cell's coefficient dictionary holds: the labels are
    ['Intercept'] and then the column names with only 'train' dropped; the
    dictionary pairs them by position with the rounded intercept and
    coefficients of the model fitted on the winning subset, one coefficient
    per member of the subset; and when the winning subset is not
    [0, ..., k-1], some position [j] carries the name of column [j], which
    is not in the subset and names no column that is. *)
Definition labels_by_position (w : world) : Prop :=
  exists out w' best,
    cell w = (inr out, w') /\
    row0 (results out) = inr best /\
    coef_labels columns = "Intercept" :: feature_names ++ ["lpsa"] /\
    best_subset_coefs out = zip (coef_labels columns) (rounded (best_subset_model out)) /\
    length (coef_ E (best_subset_model out)) = length (features best) /\
    (features best <> seq 0 (length (features best)) ->
     exists j name c,
       ~ In j (features best) /\
       nth_error feature_names j = Some name /\
       (forall i, In i (features best) -> nth_error feature_names i <> Some name) /\
       nth_error (coef_ E (best_subset_model out)) j = Some c /\
       In (name, round_decimals c 3) (best_subset_coefs out)).

(** C5: in the Best Subset Regression cell the coefficient dictionary pairs
    the fitted intercept and coefficients by position with ['Intercept']
    followed by the data set's column names in their original order, only
    the final column 'train' being dropped ('lpsa' stays in the label
    list); so whenever the winning subset is not a prefix [0, ..., k-1] of
    the feature columns, a printed coefficient carries the name of a
    feature that is not in the fitted subset. *)
Theorem C5_coefficients_are_labelled_by_position w :
  0 < p ->
  length feature_names = p ->
  NoDup ("Intercept" :: columns) ->
  forallb (fun S => succeeds (mae_of S)) (enumerated p) = true ->
  labels_by_position w.
Proof.
  intros Hp Hnames Hnd Hall.
  destruct (cell_succeeds sorter E columns X_train y_train X_test y_test w Hp Hall)
    as (best & rest & X_best & fitted & Hsorted & Hbest & Hx & Hf & Hrun).
  destruct (in_recorded E X_train y_train X_test y_test best Hall Hbest) as [Hin _].
  apply in_enumerated in Hin as (_ & Hsort & Hbound).
  assert (Hlabels : coef_labels columns = "Intercept" :: feature_names ++ ["lpsa"]).
  { unfold coef_labels. now rewrite drop_last_two. }
  assert (Hnd' : NoDup (coef_labels columns)).
  { rewrite Hlabels.
    assert (Heq : ("Intercept" :: feature_names ++ ["lpsa"; "train"])
                  = ("Intercept" :: feature_names ++ ["lpsa"]) ++ ["train"]).
    { simpl. now rewrite <- app_assoc. }
    rewrite Heq in Hnd. apply NoDup_remove_1 in Hnd. now rewrite app_nil_r in Hnd. }
  assert (Hcoef : length (coef_ E fitted) = length (features best)).
  { rewrite (coef_shape E _ _ _ Hf). now apply take_columns_shape1 in Hx. }
  assert (Hdict : coef_dict E (coef_labels columns) fitted
                  = zip (coef_labels columns) (rounded fitted)).
  { unfold coef_dict. apply dict_of_distinct_keys. now apply NoDup_zip_keys. }
  eexists _, _, best. split; [exact Hrun |]. simpl.
  split; [reflexivity |]. split; [exact Hlabels |]. split; [exact Hdict |].
  split; [exact Hcoef |].
  intros Hnp. destruct (not_prefix_misses_index _ Hsort Hnp) as (j & Hj & Hmiss).
  assert (Hk : length (features best) <= length feature_names).
  { rewrite Hnames.
    assert (Hsub : subseq (features best) (seq 0 p)).
    { apply subseq_seq. split; trivial.
      eapply Forall_impl; [| exact Hbound]. simpl. intros; lia. }
    apply subseq_length in Hsub. now rewrite length_seq in Hsub. }
  destruct (nth_error feature_names j) as [name |] eqn:Hname.
  2: { apply nth_error_None in Hname. lia. }
  destruct (nth_error (coef_ E fitted) j) as [c |] eqn:Hc.
  2: { apply nth_error_None in Hc. lia. }
  exists j, name, c. split; [exact Hmiss |]. split; [exact Hname |].
  split; [| split; [exact Hc |]].
  - intros i Hi Hname'.
    assert (NoDup feature_names) as Hndf.
    { inversion Hnd as [| ? ? _ Hnd1]; subst.
      now apply NoDup_app_remove_r in Hnd1. }
    rewrite NoDup_nth_error in Hndf.
    assert (j = i).
    { apply Hndf; [apply nth_error_Some; congruence | congruence]. }
    subst. contradiction.
  - rewrite Hdict, Hlabels. apply (in_zip_nth _ _ (S j)); simpl.
    + rewrite nth_error_app1; [exact Hname | lia].
    + rewrite nth_error_map, Hc. reflexivity.
Qed.

End Labels.

(** The claim on the demonstration data, where the winning subset is
    [[0; 2]]: the coefficient fitted to column 2 is printed under the name
    of column 1. *)
Lemma C5_coefficients_are_labelled_by_position_witness :
  length Demo.feature_names = shape1 Demo.X_train /\
  labels_by_position insertion_sorter marginal_regressor Demo.feature_names
    Demo.X_train Demo.y_train Demo.X_test Demo.y_test Demo.fresh.
Proof.
  split; [reflexivity |].
  apply C5_coefficients_are_labelled_by_position.
  - vm_compute; lia.
  - reflexivity.
  - repeat constructor; simpl; intuition discriminate.
  - vm_compute; reflexivity.
Defined.

End BestSubsetLabels.

(* ================================================================== *)
(** * The prostate train/test split *)

Module ProstateSplit.
Import Numpy Pandas.
Local Open Scope result_scope.

Lemma select_nil_r {A} (mask : list bool) : select mask (@nil A) = [].
Proof. now destruct mask. Qed.

Lemma select_map {A B} (f : A -> B) mask l : select mask (map f l) = map f (select mask l).
Proof.
  revert l. induction mask as [| b mask IH]; intros [| x l]; simpl; trivial.
  destruct b; simpl; now rewrite IH.
Qed.

Lemma length_select_indep {A B} mask (l : list A) (l' : list B) :
  length l = length l' -> length (select mask l) = length (select mask l').
Proof.
  revert l l'. induction mask as [| b mask IH]; intros [| x l] [| x' l']; simpl;
    try discriminate; trivial.
  intros H. injection H as H. destruct b; simpl; auto.
Qed.

(** Selecting by a mask computed entry by entry from a list of flags is
    filtering the pairs (flag, entry). *)
Lemma select_by_flag {A B} (f : B -> bool) (flags : list B) (l : list A) :
  select (map f flags) l = map snd (filter (fun fx => f (fst fx)) (combine flags l)).
Proof.
  revert l. induction flags as [| x flags IH]; intros [| y l]; simpl; trivial.
  destruct (f x); simpl; now rewrite IH.
Qed.

(** Masking twice: when every entry selected by [f] is kept by [k], selecting
    by [f] among the entries kept by [k] is selecting by [f]. *)
Lemma select_select {A B} (f k : B -> bool) (v : list B) (l : list A) :
  (forall x, f x = true -> k x = true) ->
  select (select (map k v) (map f v)) (select (map k v) l) = select (map f v) l.
Proof.
  intros Himp. revert l. induction v as [| x v IH]; intros l; simpl.
  - now destruct l.
  - destruct l as [| y l].
    + rewrite select_nil_r. simpl. now destruct (k x), (f x).
    + destruct (k x) eqn:Hk, (f x) eqn:Hf; simpl; rewrite ?IH; trivial.
      apply Himp in Hf. congruence.
Qed.

Lemma transpose_select mask (columns : list ndarray) n :
  Forall (fun c => length c = length mask) columns ->
  n = length (select mask mask) ->
  transpose n (map (select mask) columns) = select mask (transpose (length mask) columns).
Proof.
  revert columns n. induction mask as [| b mask IH]; intros columns n Hlen ->; trivial.
  assert (Htl : Forall (fun c => length c = length mask) (map (@tl Q) columns)).
  { apply Forall_map. eapply Forall_impl; [| exact Hlen].
    intros [| x c]; simpl; [discriminate | congruence]. }
  rewrite Forall_forall in Hlen.
  change (length (b :: mask)) with (S (length mask)).
  cbn [transpose]. destruct b.
  - change (length (select (true :: mask) (true :: mask)))
      with (S (length (select mask mask))).
    cbn [transpose select]. f_equal.
    + rewrite map_map. apply map_ext_in. intros c Hc. specialize (Hlen c Hc).
      destruct c; [discriminate | reflexivity].
    + rewrite <- (IH (map (@tl Q) columns) _ Htl eq_refl). f_equal.
      rewrite !map_map. apply map_ext_in. intros c Hc. specialize (Hlen c Hc).
      destruct c; [discriminate | reflexivity].
  - change (length (select (false :: mask) (false :: mask)))
      with (length (select mask mask)).
    cbn [select]. rewrite <- (IH (map (@tl Q) columns) _ Htl eq_refl). f_equal.
    rewrite map_map. apply map_ext_in. intros c Hc. specialize (Hlen c Hc).
    destruct c; [discriminate | reflexivity].
Qed.

Lemma lookup_mask name mask cs :
  lookup name (map (fun nc => (fst nc, select_column mask (snd nc))) cs)
  = option_map (select_column mask) (lookup name cs).
Proof.
  induction cs as [| [n c] cs IH]; simpl; trivial.
  destruct (String.eqb name n); trivial.
Qed.

Lemma lookup_In name cs c : lookup name cs = Some c -> In (name, c) cs.
Proof.
  induction cs as [| [n c'] cs IH]; simpl; [discriminate |].
  destruct (String.eqb_spec name n) as [-> | Hne].
  - intros H. injection H as ->. now left.
  - intros H. right. now apply IH.
Qed.

Lemma lookup_is_label name cs c : lookup name cs = Some c -> is_label (map fst cs) name = true.
Proof.
  intros H. apply lookup_In in H. unfold is_label. apply existsb_exists.
  exists name. split; [| apply String.eqb_refl].
  apply in_map_iff. exists (name, c). auto.
Qed.

Lemma column_names_mask d mask : column_names (mask_rows d mask) = column_names d.
Proof. unfold column_names, mask_rows. simpl. rewrite map_map. reflexivity. Qed.

Lemma filter_mask_columns (keep : string -> bool) mask cs :
  filter (fun nc => keep (fst nc)) (map (fun nc => (fst nc, select_column mask (snd nc))) cs)
  = map (fun nc => (fst nc, select_column mask (snd nc))) (filter (fun nc => keep (fst nc)) cs).
Proof.
  induction cs as [| [n c] cs IH]; simpl; trivial.
  destruct (keep n); simpl; now rewrite IH.
Qed.

Lemma all_numeric_mask mask cs columns :
  all_numeric cs = inr columns ->
  all_numeric (map (fun nc => (fst nc, select_column mask (snd nc))) cs)
  = inr (map (select mask) columns).
Proof.
  revert columns. induction cs as [| [n c] cs IH]; intros columns; simpl.
  - intros H. now injection H as <-.
  - destruct c as [v | v]; simpl; [| discriminate].
    destruct (all_numeric cs) as [e | vs]; simpl; [discriminate |].
    intros H. injection H as <-. now rewrite (IH vs eq_refl).
Qed.

Lemma all_numeric_lengths cs columns n :
  Forall (fun nc => column_length (snd nc) = n) cs ->
  all_numeric cs = inr columns ->
  Forall (fun c => length c = n) columns.
Proof.
  revert columns. induction cs as [| [nm c] cs IH]; intros columns Hwf; simpl.
  - intros H. injection H as <-. constructor.
  - inversion Hwf as [| ? ? Hc Hwf']; subst.
    destruct c as [v | v]; simpl; [| discriminate].
    destruct (all_numeric cs) as [e | vs]; simpl; [discriminate |].
    intros H. injection H as <-. constructor; auto.
Qed.

(** The columns that are neither the target nor the indicator. *)
Definition feature_columns (data : DataFrame) : list (string * column) :=
  filter (fun nc => negb (is_label ["lpsa"; "train"] (fst nc))) (cols data).

(** The entries of [l] on the rows whose flag is [flag], in row order. *)
Definition rows_with {A} (flag : string) (flags : list string) (l : list A) : list A :=
  map snd (filter (fun fx => String.eqb (fst fx) flag) (combine flags l)).

Lemma feature_column_names data name :
  In name (map fst (feature_columns data)) <->
  In name (column_names data) /\ name <> "lpsa" /\ name <> "train".
Proof.
  unfold feature_columns, column_names. rewrite !in_map_iff. split.
  - intros ([n c] & <- & Hin). apply filter_In in Hin as [Hin Hkeep]. simpl in *.
    split; [exists (n, c); auto |].
    destruct (String.eqb_spec n "lpsa"), (String.eqb_spec n "train");
      simpl in Hkeep; try discriminate. auto.
  - intros (([n c] & <- & Hin) & H1 & H2). exists (n, c). split; trivial.
    apply filter_In. split; trivial. simpl in *.
    destruct (String.eqb_spec n "lpsa"), (String.eqb_spec n "train"); simpl; congruence.
Qed.

Section Split.
Variable data : DataFrame.
Variable flags : list string.
Variable lpsa : ndarray.
Variable feature_values : list ndarray.

Hypothesis data_well_formed : well_formed data.
Hypothesis train_column : lookup "train" (cols data) = Some (StrCol flags).
Hypothesis lpsa_column : lookup "lpsa" (cols data) = Some (NumCol lpsa).
Hypothesis features_numeric : all_numeric (feature_columns data) = inr feature_values.

Lemma flags_length : length flags = nrows data.
Proof.
  apply lookup_In in train_column. unfold well_formed in data_well_formed.
  rewrite Forall_forall in data_well_formed. now apply data_well_formed in train_column.
Qed.

Lemma targets_of_flag flag : targets_of data flag = inr (rows_with flag flags lpsa).
Proof.
  unfold targets_of, getattr, getitem. rewrite train_column. simpl.
  rewrite lookup_mask, lpsa_column. simpl. unfold ok. f_equal.
  apply (select_by_flag (fun x => String.eqb x flag)).
Qed.

Lemma features_of_flag flag :
  features_of data flag
  = inr (mkMatrix (length feature_values)
                  (rows_with flag flags (transpose (nrows data) feature_values))).
Proof.
  unfold features_of, getattr. rewrite train_column. simpl.
  set (mask := map (fun x => String.eqb x flag) flags).
  unfold drop. rewrite column_names_mask. unfold column_names. simpl.
  rewrite (lookup_is_label _ _ _ lpsa_column), (lookup_is_label _ _ _ train_column). simpl.
  unfold np_array_frame. simpl.
  rewrite (filter_mask_columns (fun n => negb (is_label ["lpsa"; "train"] n))).
  fold (feature_columns data).
  rewrite (all_numeric_mask mask _ _ features_numeric). simpl. unfold ok.
  rewrite length_map. do 2 f_equal.
  assert (Hm : length mask = nrows data).
  { unfold mask. rewrite length_map. apply flags_length. }
  rewrite <- Hm. rewrite transpose_select.
  - apply (select_by_flag (fun x => String.eqb x flag)).
  - rewrite Hm. apply (all_numeric_lengths (feature_columns data)); trivial.
    unfold feature_columns. apply Forall_forall. intros nc Hnc.
    apply filter_In in Hnc as [Hnc _].
    unfold well_formed in data_well_formed. rewrite Forall_forall in data_well_formed.
    now apply data_well_formed.
  - apply length_select_indep. now rewrite length_seq.
Qed.

(** C4: the prostate train/test split is decided by the 'train' column
    alone.  On a frame with a string column 'train', a numeric column 'lpsa'
    and numeric columns otherwise, the split succeeds; [y_train] and
    [X_train] hold, in the original row order, the target and the feature
    values of exactly the rows flagged 'T', [y_test] and [X_test] those of
    the rows flagged 'F'; and the feature matrices have one column for each
    column of the frame other than 'lpsa' and 'train', so the target is not
    among the predictors. *)
Theorem C4_split_follows_train_column :
  train_test_split_prostate data =
    inr (mkSplit
           (rows_with "T" flags lpsa)
           (rows_with "F" flags lpsa)
           (mkMatrix (length feature_values)
                     (rows_with "T" flags (transpose (nrows data) feature_values)))
           (mkMatrix (length feature_values)
                     (rows_with "F" flags (transpose (nrows data) feature_values)))) /\
  length feature_values = length (feature_columns data) /\
  (forall name, In name (map fst (feature_columns data)) <->
                In name (column_names data) /\ name <> "lpsa" /\ name <> "train").
Proof.
  split; [| split].
  - unfold train_test_split_prostate.
    rewrite !targets_of_flag, !features_of_flag. reflexivity.
  - clear - features_numeric. revert features_numeric.
    generalize (feature_columns data) as cs. intros cs. revert feature_values.
    induction cs as [| [n c] cs IH]; intros vs; simpl.
    + intros H. now injection H as <-.
    + destruct c; simpl; [| discriminate].
      destruct (all_numeric cs) as [e | vs'] eqn:Hcs; simpl; [discriminate |].
      intros H. injection H as <-. simpl. f_equal. now apply IH.
  - apply feature_column_names.
Qed.

End Split.

(** The claim on the demonstration frame: rows 0, 1 and 4 train, row 3
    tests. *)
Lemma C4_split_follows_train_column_witness :
  well_formed Demo.data /\
  train_test_split_prostate Demo.data =
    inr (mkSplit [1; 2; 3]%Q [2]%Q
                 (mkMatrix 3 [[1; 0; 2]; [2; 1; 0]; [2; 0; 1]]%Q)
                 (mkMatrix 3 [[1; 1; 1]]%Q)).
Proof.
  assert (Hwf : well_formed Demo.data) by (repeat constructor).
  split; [exact Hwf |].
  exact (proj1 (C4_split_follows_train_column Demo.data
                  ["T"; "T"; "X"; "F"; "T"] [1; 2; 4; 2; 3]%Q
                  [[1; 2; 3; 1; 2]; [0; 1; 1; 1; 0]; [2; 0; 1; 1; 1]]%Q
                  Hwf eq_refl eq_refl eq_refl)).
Defined.

(** ** Rows flagged neither 'T' nor 'F' *)

Lemma eq_scalar_select mask c flag :
  eq_scalar (select_column mask c) flag = select mask (eq_scalar c flag).
Proof. destruct c; simpl; now rewrite select_map. Qed.

Lemma combine_masks {B} (f g : B -> bool) (v : list B) :
  map (fun tf => orb (fst tf) (snd tf)) (combine (map f v) (map g v))
  = map (fun x => orb (f x) (g x)) v.
Proof. induction v as [| x v IH]; simpl; [| rewrite IH]; reflexivity. Qed.

(** The two masks of a column, and the mask that keeps either, as entry by
    entry tests; no entry passes both tests. *)
Lemma flag_tests train :
  exists (B : Type) (v : list B) (fT fF : B -> bool),
    eq_scalar train "T" = map fT v /\
    eq_scalar train "F" = map fF v /\
    column_length train = length v /\
    (forall x, fT x = true -> fF x = true -> False).
Proof.
  destruct train as [v | v].
  - exists Q, v, (fun _ => false), (fun _ => false). simpl. repeat split; trivial.
    discriminate.
  - exists string, v, (fun x => String.eqb x "T"), (fun x => String.eqb x "F").
    simpl. repeat split; trivial.
    intros x H1 H2. apply String.eqb_eq in H1, H2. congruence.
Qed.

Lemma mask_rows_restrict {B} (data : DataFrame) (v : list B) (f k : B -> bool) :
  (forall x, f x = true -> k x = true) ->
  mask_rows (mask_rows data (map k v)) (select (map k v) (map f v))
  = mask_rows data (map f v).
Proof.
  intros Himp. unfold mask_rows. simpl. f_equal.
  - rewrite (length_select_indep _ _ (select (map k v) (seq 0 (nrows data))))
      by now rewrite length_seq.
    now rewrite select_select.
  - rewrite map_map. apply map_ext. intros [n c]. simpl. f_equal.
    destruct c; simpl; now rewrite select_select.
Qed.

Lemma count_disjoint {A A' B} (f g : B -> bool) (v : list B) (l : list A) (l' : list A') :
  (forall x, f x = true -> g x = true -> False) ->
  length l = length v -> length l' = length v ->
  length (select (map f v) l) + length (select (map g v) l)
  = length (select (map (fun x => orb (f x) (g x)) v) l').
Proof.
  intros Hdisj. revert l l'.
  induction v as [| x v IH]; intros [| y l] [| y' l']; simpl; try discriminate; trivial.
  intros Hl Hl'. injection Hl as Hl. injection Hl' as Hl'.
  specialize (IH l l' Hl Hl'). specialize (Hdisj x).
  destruct (f x), (g x); simpl; solve [lia | exfalso; auto].
Qed.

Lemma length_transpose n columns : length (transpose n columns) = n.
Proof.
  revert columns. induction n as [| n IH]; intros columns; simpl; [| rewrite IH]; reflexivity.
Qed.

Section Unflagged.
Variable data : DataFrame.
Variable train : column.

Hypothesis data_well_formed : well_formed data.
Hypothesis train_column : lookup "train" (cols data) = Some train.

Abbreviation keep :=
  (map (fun tf => orb (fst tf) (snd tf))
       (combine (eq_scalar train "T") (eq_scalar train "F"))).
Abbreviation restricted := (mask_rows data keep).

Lemma restricted_mask flag :
  flag = "T" \/ flag = "F" ->
  mask_rows restricted (eq_scalar (select_column keep train) flag)
  = mask_rows data (eq_scalar train flag).
Proof.
  intros Hflag. rewrite eq_scalar_select.
  destruct (flag_tests train) as (B & v & fT & fF & HT & HF & _ & _).
  rewrite HT, HF, combine_masks.
  destruct Hflag as [-> | ->].
  - rewrite HT. apply mask_rows_restrict. intros x ->. reflexivity.
  - rewrite HF. apply mask_rows_restrict. intros x ->. apply orb_true_r.
Qed.

Lemma targets_of_restricted flag :
  flag = "T" \/ flag = "F" -> targets_of restricted flag = targets_of data flag.
Proof.
  intros Hflag. unfold targets_of, getattr.
  simpl. rewrite lookup_mask, train_column. simpl.
  now rewrite restricted_mask.
Qed.

Lemma features_of_restricted flag :
  flag = "T" \/ flag = "F" -> features_of restricted flag = features_of data flag.
Proof.
  intros Hflag. unfold features_of, getattr.
  simpl. rewrite lookup_mask, train_column. simpl.
  now rewrite restricted_mask.
Qed.

Lemma targets_of_length flag y :
  targets_of data flag = inr y ->
  length y = length (select (eq_scalar train flag) (seq 0 (nrows data))).
Proof.
  unfold targets_of, getattr, getitem. rewrite train_column. simpl.
  rewrite lookup_mask.
  destruct (lookup "lpsa" (cols data)) as [c |] eqn:Hc; simpl; [| discriminate].
  destruct c as [v | v]; simpl; [| discriminate].
  intros H. injection H as <-. apply length_select_indep.
  apply lookup_In in Hc. unfold well_formed in data_well_formed.
  rewrite Forall_forall in data_well_formed. apply data_well_formed in Hc.
  simpl in Hc. now rewrite length_seq.
Qed.

Lemma features_of_length flag X :
  features_of data flag = inr X ->
  shape0 X = length (select (eq_scalar train flag) (seq 0 (nrows data))).
Proof.
  unfold features_of, getattr. rewrite train_column. simpl.
  destruct (drop (mask_rows data (eq_scalar train flag)) ["lpsa"; "train"])
    as [e | kept] eqn:Hdrop; simpl; [discriminate |].
  unfold drop in Hdrop.
  destruct (filter _ ["lpsa"; "train"]); [| discriminate].
  injection Hdrop as <-. unfold np_array_frame. simpl.
  destruct (all_numeric _) as [e | columns]; simpl; [discriminate |].
  intros H. injection H as <-. unfold shape0. simpl. apply length_transpose.
Qed.

(** C9: rows of the prostate data whose 'train' entry is neither 'T' nor
    'F' are left out silently.  The split of a frame is the split of the
    frame without those rows, exceptions included, so such a row raises
    nothing and reaches no array; and when the split succeeds the training
    and test arrays together hold as many rows as are flagged 'T' or 'F'. *)
Theorem C9_unflagged_rows_are_left_out :
  exists flagged,
    flagged_rows_only data = inr flagged /\
    train_test_split_prostate data = train_test_split_prostate flagged /\
    (forall s, train_test_split_prostate data = inr s ->
               length (y_train s) + length (y_test s) = nrows flagged /\
               shape0 (X_train s) + shape0 (X_test s) = nrows flagged).
Proof.
  exists restricted. split; [| split].
  - unfold flagged_rows_only, getattr. now rewrite train_column.
  - unfold train_test_split_prostate.
    rewrite !targets_of_restricted, !features_of_restricted by auto. reflexivity.
  - intros s Hs. unfold train_test_split_prostate in Hs.
    destruct (targets_of data "T") as [e | yT] eqn:HyT; simpl in Hs; [discriminate |].
    destruct (targets_of data "F") as [e | yF] eqn:HyF; simpl in Hs; [discriminate |].
    destruct (features_of data "T") as [e | XT] eqn:HXT; simpl in Hs; [discriminate |].
    destruct (features_of data "F") as [e | XF] eqn:HXF; simpl in Hs; [discriminate |].
    injection Hs as <-. simpl.
    apply targets_of_length in HyT, HyF. apply features_of_length in HXT, HXF.
    rewrite HyT, HyF, HXT, HXF.
    destruct (flag_tests train) as (B & v & fT & fF & HT & HF & Hlen & Hdisj).
    assert (Hn : length (seq 0 (nrows data)) = length v).
    { rewrite length_seq, <- Hlen. symmetry.
      apply lookup_In in train_column. unfold well_formed in data_well_formed.
      rewrite Forall_forall in data_well_formed.
      now apply data_well_formed in train_column. }
    rewrite HT, HF, combine_masks.
    now rewrite (count_disjoint fT fF v _ (seq 0 (nrows data)) Hdisj Hn Hn).
Qed.

End Unflagged.

(** The claim on the demonstration frame, whose third row is flagged 'X':
    four of the five rows are split, and the split is that of the four-row
    frame. *)
Lemma C9_unflagged_rows_are_left_out_witness :
  nrows Demo.data = 5 /\
  exists flagged,
    flagged_rows_only Demo.data = inr flagged /\
    nrows flagged = 4 /\
    train_test_split_prostate Demo.data = train_test_split_prostate flagged.
Proof.
  split; [reflexivity |].
  assert (Hwf : well_formed Demo.data) by (repeat constructor).
  destruct (C9_unflagged_rows_are_left_out Demo.data
              (StrCol ["T"; "T"; "X"; "F"; "T"]) Hwf eq_refl)
    as (flagged & Hr & Hsplit & _).
  exists flagged. split; [exact Hr |]. split; [| exact Hsplit].
  vm_compute in Hr. injection Hr as <-. reflexivity.
Defined.

End ProstateSplit.

(* ================================================================== *)
(** * The classification notebook: interfaces and cells *)

Module Classification.
Import Numpy Sklearn Cell.
Local Open Scope cell_scope.

(** A scikit-learn classifier; class labels are numbers (0 and 1 in the spam
    data).  [predict] returns one label per row. *)
Record Classifier : Type := mkClassifier {
  cmodel : Type;
  cfit : matrix -> ndarray -> result cmodel;
  cpredict : cmodel -> matrix -> result ndarray;
  cpredict_shape :
    forall m X labels, cpredict m X = inr labels -> length labels = shape0 X
}.

(** [y_true == y_pred], entry by entry, as 0/1 *)
Definition np_equal (a b : ndarray) : ndarray :=
  map (fun p => if Qeq_bool (fst p) (snd p) then 1%Q else 0%Q) (combine a b).

(** [sklearn.metrics.accuracy_score(y_true, y_pred)]: the average of
    [y_true == y_pred]; arrays of different lengths are rejected. *)
Definition accuracy_score (y_true y_pred : ndarray) : result float :=
  if length y_true =? length y_pred
  then ok (np_mean (np_equal y_true y_pred))
  else raise (ValueError "Found input variables with inconsistent numbers of samples").

(** [Classifier(...).fit(X, y)] *)
Definition call_cfit (C : Classifier) (X : matrix) (y : ndarray) : M (cmodel C) :=
  fun w => (cfit C X y, mkWorld (S (fit_calls w)) (stdout w)).

(** One classifier cell:
    [preds = model.fit(X_train, y_train).predict(X_test)],
    [acc = accuracy_score(y_test, preds)], [print('... Accuracy: {}'.format(acc))]. *)
Definition classification_cell (C : Classifier) (name : string)
  (X_train : matrix) (y_train : ndarray) (X_test : matrix) (y_test : ndarray) : M float :=
  fitted <- call_cfit C X_train y_train ;;
  preds <- lift (cpredict C fitted X_test) ;;
  acc <- lift (accuracy_score y_test preds) ;;
  print (PrintMetric (name ++ " Accuracy") acc) ;;;
  ret acc.

(** The number of positions at which two arrays agree. *)
Fixpoint count_equal (a b : ndarray) : nat :=
  match a, b with
  | x :: a', y :: b' => (if Qeq_bool x y then 1 else 0) + count_equal a' b'
  | _, _ => 0
  end.

(** The fraction of positions of [y_true] at which [y_pred] agrees. *)
Definition fraction_correct (y_true y_pred : ndarray) : Q :=
  (inject_Z (Z.of_nat (count_equal y_true y_pred))
   / inject_Z (Z.of_nat (length y_true)))%Q.

(** A classifier with the library's interface on which the cell can be
    evaluated: it always predicts the label seen most often in training
    (1 on a tie). *)
Definition majority_label (y : ndarray) : Q :=
  let ones := length (filter (fun l => Qeq_bool l 1) y) in
  if 2 * ones <? length y then 0%Q else 1%Q.

Definition majority_fit (X : matrix) (y : ndarray) : result Q :=
  if shape0 X =? 0 then raise (ValueError "Found array with 0 sample(s)")
  else ok (majority_label y).

Definition majority_predict (label : Q) (X : matrix) : result ndarray :=
  ok (map (fun _ => label) (rows X)).

Lemma majority_predict_shape (m : Q) X labels :
  majority_predict m X = inr labels -> length labels = shape0 X.
Proof. intros H. injection H as <-. apply length_map. Qed.

Definition majority_classifier : Classifier :=
  mkClassifier Q majority_fit majority_predict majority_predict_shape.

End Classification.

(* ================================================================== *)
(** * What the cells report *)

Module Metrics.
Import Numpy Sklearn Cell Classification Instances.
Import BestSubsetFacts BestSubsetLoop BestSubsetWinner BestSubsetSelection.

Lemma np_sum_equal_count a b :
  (np_sum (np_equal a b) == inject_Z (Z.of_nat (count_equal a b)))%Q.
Proof.
  revert b. induction a as [| x a IH]; intros [| y b]; simpl; try reflexivity.
  unfold np_equal in IH. rewrite IH.
  rewrite Nat2Z.inj_add, inject_Z_plus.
  destruct (Qeq_bool x y); reflexivity.
Qed.

Lemma length_np_equal a b : length a = length b -> length (np_equal a b) = length a.
Proof. intros H. unfold np_equal. rewrite length_map, length_combine. lia. Qed.

(** On label arrays of one common, non-zero length, [accuracy_score] is the
    fraction of agreeing positions. *)
Lemma accuracy_is_fraction y_true y_pred :
  length y_pred = length y_true -> y_true <> [] ->
  exists acc, accuracy_score y_true y_pred = inr (Fin acc) /\
              (acc == fraction_correct y_true y_pred)%Q.
Proof.
  intros Hlen Hne. unfold accuracy_score. rewrite Hlen, Nat.eqb_refl.
  unfold np_mean. pose proof (length_np_equal y_true y_pred (eq_sym Hlen)) as Hl.
  destruct (np_equal y_true y_pred) as [| d ds] eqn:Hd.
  - destruct y_true; [congruence | discriminate].
  - eexists. split; [reflexivity |].
    unfold fraction_correct. rewrite Hl, <- Hd, np_sum_equal_count. reflexivity.
Qed.

Section Reports.
Variable sorter : Sorter.
Variable E : Estimator.
Variable C : Classifier.
Variables (name cname : string) (labels columns : list string).
Variables (X_train : matrix) (y_train : ndarray) (X_test : matrix) (y_test : ndarray).
Variables (S_train : matrix) (s_train : ndarray) (S_test : matrix) (s_test : ndarray).

(** A regression cell prints the mean absolute difference between [y_test]
    and the fitted model's predictions on [X_test], rounded to three
    decimals, and keeps the unrounded value in its [..._mae] variable. *)
Definition reports_rounded_mae (w : world) : Prop :=
  exists fitted prediction coefs,
    fit E X_train y_train = inr fitted /\
    predict E fitted X_test = inr prediction /\
    regression_cell E X_train y_train X_test y_test name labels w =
      (inr (Fin (mean_abs_diff y_test prediction), coefs),
       mkWorld (S (fit_calls w))
         (stdout w ++
          [PrintMetric (name ++ " MAE")
                       (Fin (round_decimals (mean_abs_diff y_test prediction) 3));
           PrintText (name ++ " coefficients:")])).

Lemma regression_cell_report w :
  shape0 X_test = length y_test -> y_test <> [] ->
  succeeds (rbind (fit E X_train y_train) (fun m => predict E m X_test)) = true ->
  reports_rounded_mae w.
Proof.
  intros Hshape Hne Hrun.
  destruct (fit E X_train y_train) as [e | fitted] eqn:Hfit; [discriminate |].
  simpl in Hrun.
  destruct (predict E fitted X_test) as [e | prediction] eqn:Hpred; [discriminate |].
  exists fitted, prediction, (coef_dict E labels fitted).
  split; [exact Hfit |]. split; [exact Hpred |].
  pose proof (predict_shape E _ _ _ Hpred) as Hlen. rewrite Hshape in Hlen.
  pose proof (mae_expression _ _ Hlen Hne) as Hmae.
  unfold regression_cell, bind, call_fit, lift, print, ret. rewrite Hfit. simpl.
  rewrite Hpred.
  destruct (np_sub y_test prediction) as [e | diff]; simpl in Hmae; [discriminate |].
  injection Hmae as Hmae. rewrite Hmae. simpl. rewrite <- app_assoc. reflexivity.
Qed.

(** The Best Subset Regression cell prints, rounded to three decimals, the
    mean absolute difference between [y_test] and the predictions of the
    model fitted on the winning subset. *)
Definition best_subset_reports_rounded_mae (w : world) : Prop :=
  exists out w' best X_best X_test_best prediction,
    best_subset_cell sorter E columns X_train y_train X_test y_test w = (inr out, w') /\
    row0 (results out) = inr best /\
    take_columns X_train (features best) = inr X_best /\
    fit E X_best y_train = inr (best_subset_model out) /\
    take_columns X_test (features best) = inr X_test_best /\
    predict E (best_subset_model out) X_test_best = inr prediction /\
    In (PrintMetric "Best Subset Regression MAE"
                    (Fin (round_decimals (mean_abs_diff y_test prediction) 3)))
       (stdout w').

Lemma best_subset_cell_report w :
  shape0 X_test = length y_test -> y_test <> [] ->
  0 < shape1 X_train ->
  forallb (fun S => succeeds (subset_mae E X_train y_train X_test y_test S))
          (enumerated (shape1 X_train)) = true ->
  best_subset_reports_rounded_mae w.
Proof.
  intros Hshape Hne Hp Hall.
  destruct (cell_succeeds sorter E columns X_train y_train X_test y_test w Hp Hall)
    as (best & rest & X_best & fitted & Hsorted & Hbest & Hx & Hf & Hrun).
  destruct (in_recorded E X_train y_train X_test y_test best Hall Hbest) as [_ Hmae].
  destruct (subset_mae_inv E X_train y_train X_test y_test _ _ Hmae)
    as (X_sub & fitted' & X_test_sub & yhat & Hx' & Hf' & Ht & Hpred & Hexpr).
  assert (X_sub = X_best) by congruence. subst X_sub.
  assert (fitted' = fitted) by congruence. subst fitted'.
  pose proof (predict_shape E _ _ _ Hpred) as Hlen.
  rewrite (take_columns_shape0 _ _ _ Ht), Hshape in Hlen.
  rewrite (mae_expression _ _ Hlen Hne) in Hexpr. injection Hexpr as Hexpr.
  eexists _, _, best, X_best, X_test_sub, yhat.
  split; [exact Hrun |]. simpl. repeat (split; trivial).
  rewrite <- Hexpr. simpl. apply in_or_app. right. simpl. auto.
Qed.

(** A classifier cell prints the accuracy unrounded: the fraction of test
    rows whose predicted label equals the true one. *)
Definition reports_accuracy (w : world) : Prop :=
  exists fitted preds acc,
    cfit C S_train s_train = inr fitted /\
    cpredict C fitted S_test = inr preds /\
    (acc == fraction_correct s_test preds)%Q /\
    classification_cell C cname S_train s_train S_test s_test w =
      (inr (Fin acc),
       mkWorld (S (fit_calls w)) (stdout w ++ [PrintMetric (cname ++ " Accuracy") (Fin acc)])).

Lemma classification_cell_report w :
  shape0 S_test = length s_test -> s_test <> [] ->
  succeeds (rbind (cfit C S_train s_train) (fun m => cpredict C m S_test)) = true ->
  reports_accuracy w.
Proof.
  intros Hshape Hne Hrun.
  destruct (cfit C S_train s_train) as [e | fitted] eqn:Hfit; [discriminate |].
  simpl in Hrun.
  destruct (cpredict C fitted S_test) as [e | preds] eqn:Hpred; [discriminate |].
  pose proof (cpredict_shape C _ _ _ Hpred) as Hlen. rewrite Hshape in Hlen.
  destruct (accuracy_is_fraction _ _ Hlen Hne) as (acc & Hacc & Hfrac).
  exists fitted, preds, acc. split; [exact Hfit |]. split; [exact Hpred |].
  split; [exact Hfrac |].
  unfold classification_cell, bind, call_cfit, lift, print, ret.
  rewrite Hfit. simpl. rewrite Hpred, Hacc. reflexivity.
Qed.

(** C3 (as amended): what is reported is the stated metric, the regression
    errors rounded to three decimals.  For a regression model of the first
    notebook whose predictions form a one-dimensional array (ordinary least
    squares, ridge, LASSO, elastic net, least angle regression, principal
    components regression, and the best subset), the printed error is the
    mean of the absolute differences between [y_test] and the model's
    predictions on [X_test], rounded to three decimals; for a classifier of
    the second notebook the printed accuracy is the fraction of test rows
    whose predicted class equals the true label. *)
Theorem C3_reported_metrics w :
  shape0 X_test = length y_test -> y_test <> [] ->
  succeeds (rbind (fit E X_train y_train) (fun m => predict E m X_test)) = true ->
  0 < shape1 X_train ->
  forallb (fun S => succeeds (subset_mae E X_train y_train X_test y_test S))
          (enumerated (shape1 X_train)) = true ->
  shape0 S_test = length s_test -> s_test <> [] ->
  succeeds (rbind (cfit C S_train s_train) (fun m => cpredict C m S_test)) = true ->
  reports_rounded_mae w /\ best_subset_reports_rounded_mae w /\ reports_accuracy w.
Proof.
  intros Hshape Hne Hreg Hp Hall Hcshape Hcne Hcls. split; [| split].
  - now apply regression_cell_report.
  - now apply best_subset_cell_report.
  - now apply classification_cell_report.
Qed.

End Reports.

(** The amended claim on the demonstration data. *)
Lemma C3_reported_metrics_witness :
  shape0 Demo.X_test = length Demo.y_test /\
  reports_rounded_mae marginal_regressor "Linear Regression"
    (coef_labels Demo.columns) Demo.X_train Demo.y_train Demo.X_test Demo.y_test
    Demo.fresh /\
  best_subset_reports_rounded_mae insertion_sorter marginal_regressor Demo.columns
    Demo.X_train Demo.y_train Demo.X_test Demo.y_test Demo.fresh /\
  reports_accuracy majority_classifier "LDA"
    Demo.spam_X_train Demo.spam_y_train Demo.spam_X_test Demo.spam_y_test Demo.fresh.
Proof.
  split; [reflexivity |].
  apply C3_reported_metrics.
  - reflexivity.
  - discriminate.
  - reflexivity.
  - vm_compute; lia.
  - vm_compute; reflexivity.
  - reflexivity.
  - discriminate.
  - reflexivity.
Defined.

(** C3 as stated fails for the regression cells: on the demonstration data
    the mean absolute test error of the fitted model is 79240/39200, and the
    cell prints 2.021, a different number. *)
Lemma C3_printed_error_is_rounded :
  exists fitted prediction mae coefs w',
    fit marginal_regressor Demo.X_train Demo.y_train = inr fitted /\
    predict marginal_regressor fitted Demo.X_test = inr prediction /\
    mean_abs_diff Demo.y_test prediction = mae /\
    regression_cell marginal_regressor Demo.X_train Demo.y_train Demo.X_test Demo.y_test
      "Linear Regression" (coef_labels Demo.columns) Demo.fresh
    = (inr (Fin mae, coefs), w') /\
    stdout w' = [PrintMetric "Linear Regression MAE" (Fin (2021 # 1000));
                 PrintText "Linear Regression coefficients:"] /\
    ~ float_eq (Fin (2021 # 1000)) (Fin mae).
Proof.
  eexists _, _, _, _, _.
  split; [vm_compute; reflexivity |]. split; [vm_compute; reflexivity |].
  split; [vm_compute; reflexivity |]. split; [vm_compute; reflexivity |].
  split; [reflexivity |].
  simpl. intros H. vm_compute in H. discriminate.
Qed.

(** ** The Partial Least Squares cell

    With predictions that form a column, [y_test - pls_prediction] is the
    square array of all differences [y_test[j] - prediction[i]], and the
    cell reports the mean over all pairs.  On two test rows that are
    predicted exactly it prints 1.0, where the one-dimensional cell prints
    0.0. *)
Example pls_cell_reports_mean_over_all_pairs :
  let X_train := mkMatrix 1 [[1]; [2]]%Q in
  let y := [1; 2]%Q in
  let X_test := mkMatrix 1 [[0]; [2]]%Q in
  let y_test := [0; 2]%Q in
  let names := ["lcavol"; "lpsa"; "train"] in
  predict2 column_regressor [1%Q] X_test = inr (as_column y_test) /\
  stdout (snd (pls_regression_cell column_regressor names X_train y X_test y_test
                 Demo.fresh))
  = [PrintMetric "Partial Least Squares Regression MAE" (Fin (1000 # 1000));
     PrintText "Partial Least Squares Regression coefficients:"] /\
  stdout (snd (regression_cell marginal_regressor X_train y X_test y_test
                 "Linear Regression" (coef_labels names) Demo.fresh))
  = [PrintMetric "Linear Regression MAE" (Fin (0 # 1000));
     PrintText "Linear Regression coefficients:"].
Proof. cbv zeta. repeat split; vm_compute; reflexivity. Qed.

End Metrics.

(* ================================================================== *)
(** * The hyper-parameter grids handed to the library *)

Module Grids.
Import Numpy Sklearn Cell.


(** The number [10 ** exponent], kept as its exponent. *)
Inductive power : Type := Pow10 (exponent : Q).



(** The estimators the first notebook constructs, with the arguments it
    passes. *)
Inductive step : Type :=
| LinearRegression (normalize : bool)
| PCA
| PLSRegression (scale : bool).

Inductive base_estimator : Type :=
| Single (estimator : step)
| Pipeline (steps : list (string * step)).

Inductive estimator_spec : Type :=
| Plain (estimator : base_estimator)
| RidgeCV (normalize : bool) (alphas : list power)
| LassoCV (normalize : bool) (alphas : list power)
| ElasticNetCV (normalize : bool) (alphas : list power) (l1_ratio : list Q)
| LarsCV (normalize : bool)
| GridSearchCV (estimator : base_estimator) (param_grid : list (string * list nat)).

Definition linreg_model : estimator_spec := Plain (Single (LinearRegression true)).














Section Cells.
(** The library: what fits and predicts for a constructed estimator. *)
Variable sklearn : estimator_spec -> Estimator.
Variable sklearn_pls : estimator_spec -> ColumnEstimator.
Variable columns : list string.
(** The number of components the PCR search settles on
    ([pcareg_model.best_params_]). *)
Variable n_comp : nat.
Variables (X_train : matrix) (y_train : ndarray) (X_test : matrix) (y_test : ndarray).

(** A cell that constructs the estimator [spec], fits it once and reports. *)
Definition search_cell (spec : estimator_spec) (name : string) (labels : list string)
  : M (float * dict Q) :=
  regression_cell (sklearn spec) X_train y_train X_test y_test name labels.

Definition linreg_cell := search_cell linreg_model "Linear Regression" (coef_labels columns).






End Cells.


End Grids.

(* ================================================================== *)
(** * The spam notebook: the seeded train/test split *)

Module Spam.
Import Numpy Sklearn Cell Classification.
Local Open Scope cell_scope.

(** What the notebook uses of the environment: the CSV reader and numpy's
    random generator.  [RandomState seed] is a generator seeded afresh;
    [permutation g n] is the shuffle of [0 .. n-1] that generator [g] draws. *)
Record Library : Type := mkLibrary {
  read_csv : string -> result matrix;
  rng_state : Type;
  RandomState : Z -> rng_state;
  permutation : rng_state -> nat -> list nat;
  permutation_spec : forall g n, Permutation (seq 0 n) (permutation g n)
}.

(** [check_random_state]: [None] is the process-wide generator, an integer
    seeds a new one. *)
Definition check_random_state (L : Library) (random_state : option Z)
  (global : rng_state L) : rng_state L :=
  match random_state with
  | None => global
  | Some seed => RandomState L seed
  end.

(** [frame.iloc[:, :-1]] as an array *)
Definition iloc_all_but_last (t : matrix) : matrix :=
  mkMatrix (shape1 t - 1) (map (@removelast Q) (rows t)).

(** [frame.iloc[:, -1]] as an array; [IndexError] when there is no column *)
Definition iloc_last (t : matrix) : result ndarray :=
  if shape1 t =? 0 then raise IndexError
  else ok (map (fun row => last row 0%Q) (rows t)).

Definition take_rows (X : matrix) (indices : list nat) : matrix :=
  mkMatrix (shape1 X) (map (fun i => nth i (rows X) []) indices).

Definition take (a : ndarray) (indices : list nat) : ndarray :=
  map (fun i => nth i a 0%Q) indices.

Record spam_split : Type := mkSpamSplit {
  X_train : matrix;
  X_test : matrix;
  y_train : ndarray;
  y_test : ndarray
}.

(** [train_test_split(X, y, test_size=..., random_state=...)]: the test set
    takes the first [ceil(test_size * n)] indices of one shuffle of the
    rows, the training set the rest. *)
Definition train_test_split (L : Library) (X : matrix) (y : ndarray)
  (test_size : Q) (random_state : option Z) (global : rng_state L) : result spam_split :=
  if negb (shape0 X =? length y)
  then raise (ValueError "Found input variables with inconsistent numbers of samples")
  else
    let n := shape0 X in
    let n_test := Z.to_nat (Qceiling (test_size * inject_Z (Z.of_nat n))) in
    let n_train := n - n_test in
    if n_train =? 0 then raise (ValueError "the resulting train set will be empty")
    else
      let rng := check_random_state L random_state global in
      let shuffled := permutation L rng n in
      let ind_test := firstn n_test shuffled in
      let ind_train := firstn n_train (skipn n_test shuffled) in
      ok (mkSpamSplit (take_rows X ind_train) (take_rows X ind_test)
                      (take y ind_train) (take y ind_test)).

Section Notebook.
Variable L : Library.
Variables lda qda rda logreg : Classifier.

(** The first cell: load the file and split it. *)
Definition load_and_split (spam_txt : string) (global : rng_state L) : result spam_split :=
  rbind (read_csv L spam_txt) (fun spam_data =>
  rbind (iloc_last spam_data) (fun y =>
  train_test_split L (iloc_all_but_last spam_data) y (2 # 10) (Some 42%Z) global)).

(** The whole notebook: the accuracies it reports, in order. *)
Definition spam_notebook (spam_txt : string) (global : rng_state L) : M (list float) :=
  s <- lift (load_and_split spam_txt global) ;;
  lda_acc <- classification_cell lda "LDA"
               (X_train s) (y_train s) (X_test s) (y_test s) ;;
  qda_acc <- classification_cell qda "QDA"
               (X_train s) (y_train s) (X_test s) (y_test s) ;;
  rda_acc <- classification_cell rda "RDA"
               (X_train s) (y_train s) (X_test s) (y_test s) ;;
  logreg_acc <- classification_cell logreg "Logistic Regression"
               (X_train s) (y_train s) (X_test s) (y_test s) ;;
  ret [lda_acc; qda_acc; rda_acc; logreg_acc].

(** C10: the spam experiment is deterministic.  The split is made with test
    fraction 0.2 and [random_state=42], so whatever state the process-wide
    random generator is in, two runs on the same file contents make the same
    train and test sets, and the notebook, accuracies and printed lines
    included, is the same function of the file contents. *)
Theorem C10_spam_experiment_is_deterministic (spam_txt : string) (g1 g2 : rng_state L) w :
  load_and_split spam_txt g1 = load_and_split spam_txt g2 /\
  load_and_split spam_txt g1 =
    rbind (read_csv L spam_txt) (fun spam_data =>
    rbind (iloc_last spam_data) (fun y =>
    train_test_split L (iloc_all_but_last spam_data) y (2 # 10) (Some 42%Z)
                     (RandomState L 42))) /\
  spam_notebook spam_txt g1 w = spam_notebook spam_txt g2 w.
Proof.
  assert (Hsplit : forall g g', load_and_split spam_txt g = load_and_split spam_txt g').
  { intros g g'. unfold load_and_split, train_test_split, check_random_state.
    reflexivity. }
  split; [apply Hsplit |]. split; [apply Hsplit |].
  unfold spam_notebook, bind, lift. now rewrite (Hsplit g1 g2).
Qed.

(** The train and test sets of a split are a partition of the rows: together
    they are the rows of the table in shuffled order, the test set holding
    [ceil(test_size * n)] of them. *)
Lemma train_test_split_partitions X y test_size random_state global s :
  train_test_split L X y test_size random_state global = inr s ->
  Permutation (rows (X_test s) ++ rows (X_train s)) (rows X) /\
  shape0 (X_test s) + shape0 (X_train s) = shape0 X.
Proof.
  unfold train_test_split.
  destruct (negb (shape0 X =? length y)); [discriminate |].
  set (n := shape0 X).
  set (n_test := Z.to_nat (Qceiling (test_size * inject_Z (Z.of_nat n)))).
  destruct (n - n_test =? 0) eqn:Hn; [discriminate |].
  apply Nat.eqb_neq in Hn.
  set (shuffled := permutation L (check_random_state L random_state global) n).
  intros H. injection H as <-. simpl.
  assert (Hperm : Permutation (seq 0 n) shuffled) by apply permutation_spec.
  assert (Hlen : length shuffled = n).
  { apply Permutation_length in Hperm. now rewrite length_seq in Hperm. }
  assert (Hall : firstn (n - n_test) (skipn n_test shuffled) = skipn n_test shuffled).
  { apply firstn_all2. rewrite length_skipn. lia. }
  rewrite Hall. split.
  - rewrite <- map_app, firstn_skipn.
    eapply Permutation_trans; [apply Permutation_map, Permutation_sym, Hperm |].
    unfold n, shape0. clear.
    induction (rows X) as [| r rs IH]; simpl; [constructor |].
    constructor. rewrite <- seq_shift, map_map. exact IH.
  - unfold shape0. simpl. rewrite <- length_app, <- map_app, firstn_skipn, length_map.
    exact Hlen.
Qed.

End Notebook.

(** A generator on which the split can be evaluated: its state is a number
    of positions, and its shuffle rotates the indices by that many. *)
Definition rotation (g n : nat) : list nat :=
  skipn (g mod (S n)) (seq 0 n) ++ firstn (g mod (S n)) (seq 0 n).

Lemma rotation_spec g n : Permutation (seq 0 n) (rotation g n).
Proof.
  unfold rotation. rewrite <- (firstn_skipn (g mod S n) (seq 0 n)) at 1.
  apply Permutation_app_comm.
Qed.

Definition rotation_library (parse : string -> result matrix) : Library :=
  mkLibrary parse nat Z.to_nat rotation rotation_spec.

(** Without a seed the split follows the process-wide generator: two states
    of it give two different test sets. *)
Example unseeded_split_depends_on_the_generator :
  let L := rotation_library (fun _ => ok Demo.spam_txt) in
  let X := iloc_all_but_last Demo.spam_txt in
  let y := [1; 0; 1; 0; 1; 0; 1; 0; 1; 1]%Q in
  train_test_split L X y (2 # 10) None 0 <> train_test_split L X y (2 # 10) None 3 /\
  train_test_split L X y (2 # 10) (Some 42%Z) 0
  = train_test_split L X y (2 # 10) (Some 42%Z) 3.
Proof. cbv zeta. split; [vm_compute; discriminate | reflexivity]. Qed.

End Spam.

(* ================================================================== *)
(** * More on the prostate split: missing columns, shapes *)

Module SplitProperties.
Import Numpy Pandas ProstateSplit.
Local Open Scope result_scope.

(** A frame without a 'train' column stops the split at [data.train]; one
    with 'train' but without 'lpsa' stops it at [['lpsa']]. *)
Theorem split_reports_the_missing_column (data : DataFrame) :
  match lookup "train" (cols data), lookup "lpsa" (cols data) with
  | None, _ => train_test_split_prostate data = inl (AttributeError "train")
  | Some _, None => train_test_split_prostate data = inl (KeyError "lpsa")
  | Some _, Some _ => True
  end.
Proof.
  unfold train_test_split_prostate, targets_of, getattr, getitem.
  destruct (lookup "train" (cols data)) as [train |]; [| reflexivity].
  destruct (lookup "lpsa" (cols data)) as [lpsa |] eqn:Hl; [exact I |].
  simpl. now rewrite lookup_mask, Hl.
Qed.

Lemma transpose_row_lengths n (columns : list ndarray) :
  Forall (fun row => length row = length columns) (transpose n columns).
Proof.
  revert columns. induction n as [| n IH]; intros columns; simpl; constructor.
  - apply length_map.
  - specialize (IH (map (@tl Q) columns)). now rewrite length_map in IH.
Qed.

Lemma all_numeric_length cs columns :
  all_numeric cs = inr columns -> length columns = length cs.
Proof.
  revert columns. induction cs as [| [n c] cs IH]; intros columns; simpl.
  - intros H. now injection H as <-.
  - destruct c; simpl; [| discriminate].
    destruct (all_numeric cs) as [e | vs]; simpl; [discriminate |].
    intros H. injection H as <-. simpl. f_equal. now apply IH.
Qed.

(** The feature matrix of either flag has one column per feature column of
    the frame, and every one of its rows has that many entries. *)
Lemma features_of_shape data flag X :
  features_of data flag = inr X ->
  shape1 X = length (feature_columns data) /\
  Forall (fun row => length row = shape1 X) (rows X).
Proof.
  unfold features_of, getattr.
  destruct (lookup "train" (cols data)) as [train |]; [| discriminate]. simpl.
  unfold drop.
  destruct (filter _ ["lpsa"; "train"]); [| discriminate]. simpl.
  unfold np_array_frame. simpl.
  rewrite (filter_mask_columns (fun n => negb (is_label ["lpsa"; "train"] n))).
  fold (feature_columns data).
  destruct (all_numeric _) as [e | columns] eqn:Hnum; simpl; [discriminate |].
  intros H. injection H as <-. simpl. split.
  - apply all_numeric_length in Hnum. now rewrite length_map in Hnum.
  - apply transpose_row_lengths.
Qed.

Lemma split_shapes (data : DataFrame) (s : split) :
  well_formed data ->
  train_test_split_prostate data = inr s ->
  shape0 (X_train s) = length (y_train s) /\
  shape0 (X_test s) = length (y_test s) /\
  shape1 (X_train s) = length (feature_columns data) /\
  shape1 (X_test s) = shape1 (X_train s) /\
  Forall (fun row => length row = shape1 (X_train s)) (rows (X_train s)) /\
  Forall (fun row => length row = shape1 (X_test s)) (rows (X_test s)).
Proof.
  intros Hwf Hs. unfold train_test_split_prostate in Hs.
  destruct (targets_of data "T") as [e | yT] eqn:HyT; simpl in Hs; [discriminate |].
  destruct (targets_of data "F") as [e | yF] eqn:HyF; simpl in Hs; [discriminate |].
  destruct (features_of data "T") as [e | XT] eqn:HXT; simpl in Hs; [discriminate |].
  destruct (features_of data "F") as [e | XF] eqn:HXF; simpl in Hs; [discriminate |].
  injection Hs as <-. simpl.
  destruct (lookup "train" (cols data)) as [train |] eqn:Htrain.
  2: { unfold targets_of, getattr in HyT. rewrite Htrain in HyT. discriminate. }
  rewrite (targets_of_length data train Hwf Htrain _ _ HyT).
  rewrite (targets_of_length data train Hwf Htrain _ _ HyF).
  rewrite (features_of_length data train Htrain _ _ HXT).
  rewrite (features_of_length data train Htrain _ _ HXF).
  destruct (features_of_shape _ _ _ HXT) as [H1 HrT].
  destruct (features_of_shape _ _ _ HXF) as [H2 HrF].
  repeat split; trivial. congruence.
Qed.

(** Whenever the split succeeds on a frame, features and targets line up:
    each matrix has as many rows as its target array has entries, the two
    matrices have the same number of columns (one per column of the frame
    other than 'lpsa' and 'train'), and every row is that long. *)
Theorem split_arrays_line_up (data : DataFrame) (s : split) :
  well_formed data ->
  train_test_split_prostate data = inr s ->
  shape0 (X_train s) = length (y_train s) /\
  shape0 (X_test s) = length (y_test s) /\
  shape1 (X_train s) = length (feature_columns data) /\
  shape1 (X_test s) = shape1 (X_train s) /\
  Forall (fun row => length row = shape1 (X_train s)) (rows (X_train s)) /\
  Forall (fun row => length row = shape1 (X_test s)) (rows (X_test s)).
Proof. apply split_shapes. Qed.

(** On the demonstration frame: three training rows, one test row, three
    feature columns. *)
Lemma split_arrays_line_up_witness :
  exists s,
    train_test_split_prostate Demo.data = inr s /\
    shape0 (X_train s) = length (y_train s) /\
    shape1 (X_test s) = shape1 (X_train s).
Proof.
  eexists. split; [vm_compute; reflexivity |].
  assert (Hwf : well_formed Demo.data) by (repeat constructor).
  destruct (split_arrays_line_up Demo.data _ Hwf eq_refl) as (H1 & _ & _ & H4 & _).
  split; [exact H1 | exact H4].
Defined.

End SplitProperties.

(* ================================================================== *)
(** * More on the Best Subset Regression cell *)

Module LoopProperties.
Import Numpy Sklearn Cell Itertools ItertoolsFacts BestSubsetFacts BestSubsetLoop.
Import BestSubsetWinner BestSubsetSelection Instances.

Lemma take_columns_succeeds X S :
  succeeds (take_columns X S) = true <-> Forall (fun j => j < shape1 X) S.
Proof.
  unfold take_columns. rewrite Forall_forall.
  destruct (forallb (fun j => j <? shape1 X) S) eqn:Hb; simpl.
  - rewrite forallb_forall in Hb. split; trivial.
    intros _ j Hj. apply Nat.ltb_lt. auto.
  - split; [discriminate |]. intros H.
    assert (Ht : forallb (fun j => j <? shape1 X) S = true).
    { apply forallb_forall. intros j Hj. apply Nat.ltb_lt. auto. }
    congruence.
Qed.

Lemma take_columns_in_range X S :
  Forall (fun j => j < shape1 X) S -> exists X_sub, take_columns X S = inr X_sub.
Proof.
  intros H. apply take_columns_succeeds in H.
  destruct (take_columns X S) as [e | X_sub]; [discriminate | eauto].
Qed.

Lemma enumerated_below p q S : In S (enumerated p) -> p <= q -> Forall (fun j => j < q) S.
Proof.
  intros HS Hle. apply in_enumerated in HS as (_ & _ & Hb).
  eapply Forall_impl; [| exact Hb]. simpl. intros; lia.
Qed.

Lemma last_index_enumerated p : 0 < p -> In [p - 1] (enumerated p).
Proof.
  intros Hp. apply in_enumerated. split; [discriminate |]. split.
  - repeat constructor.
  - repeat constructor. lia.
Qed.

(** The loop never indexes the training matrix out of range, and it indexes
    the test matrix in range exactly when that matrix has at least as many
    columns as the training matrix. *)
Theorem loop_indexing_stays_in_range (X_train X_test : matrix) :
  (forall S, In S (enumerated (shape1 X_train)) ->
             exists X_sub, take_columns X_train S = inr X_sub /\
                           shape1 X_sub = length S /\
                           shape0 X_sub = shape0 X_train) /\
  ((forall S, In S (enumerated (shape1 X_train)) ->
              succeeds (take_columns X_test S) = true)
   <-> shape1 X_train <= shape1 X_test).
Proof.
  split.
  - intros S HS.
    destruct (take_columns_in_range X_train S (enumerated_below _ _ _ HS (le_n _)))
      as (X_sub & Ht).
    exists X_sub. split; [exact Ht |].
    split; [eapply take_columns_shape1 | eapply take_columns_shape0]; eassumption.
  - split.
    + intros H. destruct (shape1 X_train) as [| n] eqn:Hp; [lia |].
      assert (Hin : In [S n - 1] (enumerated (S n))) by (apply last_index_enumerated; lia).
      specialize (H _ Hin). apply take_columns_succeeds in H.
      inversion H; subst. lia.
    + intros Hle S HS. apply take_columns_succeeds. eapply enumerated_below; eassumption.
Qed.

Lemma sort_values_nil (sorter : Sorter) : sort_values sorter [] = [].
Proof. apply Permutation_nil, sort_values_perm. Qed.

Section Cell.
Variable sorter : Sorter.
Variable E : Estimator.
Variable columns : list string.
Variables (X_train : matrix) (y_train : ndarray) (X_test : matrix) (y_test : ndarray).

Abbreviation p := (shape1 X_train).
Abbreviation mae_of := (subset_mae E X_train y_train X_test y_test).
Abbreviation cell :=
  (best_subset_cell sorter E columns X_train y_train X_test y_test).
Abbreviation recorded := (map (row_of E X_train y_train X_test y_test) (loop_items p)).

(** Whether the library fits and predicts on the columns of [S]. *)
Definition library_succeeds_on (S : list nat) : bool :=
  match take_columns X_train S, take_columns X_test S with
  | inr X_sub, inr X_test_sub =>
      succeeds (rbind (fit E X_sub y_train) (fun m => predict E m X_test_sub))
  | _, _ => true
  end.

(** With a test matrix of at least as many columns and as many rows as there
    are test targets, indexing and subtraction never fail: a subset is
    scored as soon as the library fits and predicts on it. *)
Lemma glue_adds_no_failure :
  shape1 X_train <= shape1 X_test ->
  shape0 X_test = length y_test ->
  forallb library_succeeds_on (enumerated p) = true ->
  forallb (fun S => succeeds (mae_of S)) (enumerated p) = true.
Proof.
  intros Hcols Hrows Hlib. rewrite forallb_forall in *. intros S HS.
  specialize (Hlib S HS). unfold library_succeeds_on in Hlib.
  destruct (take_columns_in_range X_train S (enumerated_below _ _ _ HS (le_n _)))
    as (X_sub & H1).
  destruct (take_columns_in_range X_test S (enumerated_below _ _ _ HS Hcols))
    as (X_test_sub & H2).
  rewrite H1, H2 in Hlib. unfold subset_mae. rewrite H1. simpl.
  destruct (fit E X_sub y_train) as [e | m]; [discriminate |]. simpl in *.
  rewrite H2. simpl.
  destruct (predict E m X_test_sub) as [e | yhat] eqn:Hp; [discriminate |]. simpl.
  apply predict_shape in Hp. rewrite (take_columns_shape0 _ _ _ H2), Hrows in Hp.
  unfold np_sub. rewrite Hp, Nat.eqb_refl. reflexivity.
Qed.

(** Without a feature column the loop body never runs: the cell prints the
    empty table and stops at [results['features'][0]] with [KeyError],
    having fitted nothing. *)
Theorem no_column_ends_in_KeyError w :
  shape1 X_train = 0 ->
  cell w = (inl (KeyError "0"), mkWorld (fit_calls w) (stdout w ++ [PrintTable []])).
Proof.
  intros Hp. rewrite cell_run. unfold best_subset_loop. rewrite Hp. simpl.
  unfold ret. now rewrite sort_values_nil.
Qed.

(** With at least one feature column ([0 < p]) and every visited subset
    fitted and scored, the cell calls [fit] exactly [2^p] times: once per
    non-empty subset, and once more for the winner.  (With no column the
    cell makes no fit and fails, see [no_column_ends_in_KeyError].) *)
Theorem cell_fits_two_to_the_p_times w :
  0 < p ->
  forallb (fun S => succeeds (mae_of S)) (enumerated p) = true ->
  exists out w', cell w = (inr out, w') /\ fit_calls w' = fit_calls w + 2 ^ p.
Proof.
  intros Hp Hall.
  destruct (cell_succeeds sorter E columns X_train y_train X_test y_test w Hp Hall)
    as (best & rest & X_best & fitted & _ & _ & _ & _ & Hrun).
  eexists _, _. split; [exact Hrun |]. simpl.
  rewrite length_enumerated. pose proof (Nat.pow_nonzero 2 p). lia.
Qed.

(** The frame the cell returns: one row per non-empty subset (each subset
    once), in non-decreasing order of [MAE], every row holding the size of
    its subset and the test error recorded for it. *)
Theorem results_frame_is_sorted_and_complete w :
  0 < p ->
  forallb (fun S => succeeds (mae_of S)) (enumerated p) = true ->
  exists out w',
    cell w = (inr out, w') /\
    Permutation (enumerated p) (map features (results out)) /\
    Sorted MAE_le (results out) /\
    length (results out) = 2 ^ p - 1 /\
    Forall (fun r => num_features r = length (features r) /\
                     mae_of (features r) = inr (MAE r)) (results out).
Proof.
  intros Hp Hall.
  destruct (cell_succeeds sorter E columns X_train y_train X_test y_test w Hp Hall)
    as (best & rest & X_best & fitted & Hsorted & _ & _ & _ & Hrun).
  eexists _, _. split; [exact Hrun |]. cbn [results]. rewrite <- Hsorted.
  pose proof (sort_values_perm sorter recorded) as Hperm.
  assert (Hfeat : map features recorded = enumerated p).
  { rewrite map_map. simpl. apply loop_items_subsets. }
  split; [| split; [| split]].
  - rewrite <- Hfeat. now apply Permutation_map.
  - apply sort_values_sorted.
  - rewrite <- (Permutation_length Hperm), <- length_enumerated, <- Hfeat.
    symmetry. apply length_map.
  - apply Forall_forall. intros r Hr.
    assert (Hrec : In r recorded).
    { eapply Permutation_in; [apply Permutation_sym, Hperm | exact Hr]. }
    split.
    + apply in_map_iff in Hrec as (it & <- & Hit). simpl.
      now apply loop_items_sizes with (p := p).
    + now apply (in_recorded E X_train y_train X_test y_test r Hall).
Qed.

End Cell.

(** The demonstration data: eight fits for three columns. *)
Lemma cell_fits_two_to_the_p_times_witness :
  exists out w',
    best_subset_cell insertion_sorter marginal_regressor Demo.columns
      Demo.X_train Demo.y_train Demo.X_test Demo.y_test Demo.fresh = (inr out, w') /\
    fit_calls w' = 8.
Proof.
  destruct (cell_fits_two_to_the_p_times insertion_sorter marginal_regressor Demo.columns
              Demo.X_train Demo.y_train Demo.X_test Demo.y_test Demo.fresh)
    as (out & w' & Hrun & Hfits).
  - vm_compute; lia.
  - vm_compute; reflexivity.
  - exists out, w'. split; [exact Hrun | exact Hfits].
Defined.

(** The demonstration data: a frame of seven rows. *)
Lemma results_frame_is_sorted_and_complete_witness :
  exists out w',
    best_subset_cell insertion_sorter marginal_regressor Demo.columns
      Demo.X_train Demo.y_train Demo.X_test Demo.y_test Demo.fresh = (inr out, w') /\
    length (results out) = 7 /\
    Sorted MAE_le (results out).
Proof.
  destruct (results_frame_is_sorted_and_complete insertion_sorter marginal_regressor
              Demo.columns Demo.X_train Demo.y_train Demo.X_test Demo.y_test Demo.fresh)
    as (out & w' & Hrun & _ & Hsorted & Hlen & _).
  - vm_compute; lia.
  - vm_compute; reflexivity.
  - exists out, w'. split; [exact Hrun |]. split; [exact Hlen | exact Hsorted].
Defined.

(** A training matrix without columns. *)
Lemma no_column_ends_in_KeyError_witness :
  best_subset_cell insertion_sorter marginal_regressor Demo.columns
    (mkMatrix 0 [[]; []]) [1; 2]%Q (mkMatrix 0 [[]]) [1]%Q Demo.fresh
  = (inl (KeyError "0"), mkWorld 0 [PrintTable []]).
Proof.
  exact (no_column_ends_in_KeyError insertion_sorter marginal_regressor Demo.columns
           (mkMatrix 0 [[]; []]) [1; 2]%Q (mkMatrix 0 [[]]) [1]%Q Demo.fresh eq_refl).
Defined.

End LoopProperties.

(* ================================================================== *)
(** * From the split to the Best Subset Regression cell *)

Module Pipeline.
Import Numpy Sklearn Cell Pandas Instances.
Import BestSubsetSelection SplitProperties LoopProperties.

(** The arrays of a successful split can be handed to the Best Subset
    Regression cell as they are: with at least one feature column, the cell
    returns whenever the library fits and predicts on every subset of the
    columns; the notebook's own indexing and arithmetic raise nothing. *)
Theorem split_feeds_the_best_subset_cell
  (sorter : Sorter) (E : Estimator) (data : DataFrame) (s : split) (w : world) :
  well_formed data ->
  train_test_split_prostate data = inr s ->
  0 < shape1 (X_train s) ->
  forallb (library_succeeds_on E (X_train s) (y_train s) (X_test s))
          (enumerated (shape1 (X_train s))) = true ->
  exists out w',
    best_subset_cell sorter E (column_names data)
      (X_train s) (y_train s) (X_test s) (y_test s) w = (inr out, w').
Proof.
  intros Hwf Hs Hp Hlib.
  destruct (split_shapes data s Hwf Hs) as (_ & Hrows & _ & Hcols & _).
  assert (Hall : forallb
                   (fun S => succeeds (subset_mae E (X_train s) (y_train s)
                                                  (X_test s) (y_test s) S))
                   (enumerated (shape1 (X_train s))) = true).
  { apply glue_adds_no_failure; trivial. lia. }
  destruct (cell_succeeds sorter E (column_names data) _ _ _ _ w Hp Hall)
    as (best & rest & X_best & fitted & _ & _ & _ & _ & Hrun).
  eauto.
Qed.

(** The demonstration frame, split and searched. *)
Lemma split_feeds_the_best_subset_cell_witness :
  exists s out w',
    train_test_split_prostate Demo.data = inr s /\
    best_subset_cell insertion_sorter marginal_regressor (column_names Demo.data)
      (X_train s) (y_train s) (X_test s) (y_test s) Demo.fresh = (inr out, w').
Proof.
  assert (Hwf : well_formed Demo.data) by (repeat constructor).
  eexists.
  destruct (split_feeds_the_best_subset_cell insertion_sorter marginal_regressor
              Demo.data _ Demo.fresh Hwf eq_refl) as (out & w' & Hrun).
  - vm_compute; lia.
  - vm_compute; reflexivity.
  - exists out, w'. split; [reflexivity | exact Hrun].
Defined.

End Pipeline.

(* ================================================================== *)
(** * More on the coefficient dictionaries *)

Module LabelProperties.
Import Numpy Sklearn Cell Itertools ItertoolsFacts BestSubsetFacts BestSubsetLoop.
Import BestSubsetWinner BestSubsetSelection BestSubsetLabels Instances.

Lemma zip_firstn {A B} (l1 : list A) (l2 : list B) :
  zip l1 l2 = zip (firstn (length l2) l1) l2.
Proof.
  revert l2. induction l1 as [| a l1 IH]; intros [| b l2]; simpl; trivial.
  unfold zip in *. simpl. now rewrite <- IH.
Qed.

Lemma firstn_as_nth {A} (d : A) (l : list A) k :
  k <= length l -> firstn k l = map (fun j => nth j l d) (seq 0 k).
Proof.
  revert k. induction l as [| a l IH]; intros [| k] Hk; simpl in *; trivial; try lia.
  f_equal. rewrite <- seq_shift, map_map. apply IH. lia.
Qed.

Lemma map_nth_injective {A} (d : A) (l : list A) (S1 S2 : list nat) :
  NoDup l ->
  Forall (fun j => j < length l) S1 -> Forall (fun j => j < length l) S2 ->
  map (fun j => nth j l d) S1 = map (fun j => nth j l d) S2 -> S1 = S2.
Proof.
  intros Hnd H1. revert S2. induction H1 as [| i S1 Hi _ IH]; intros S2 H2 Heq.
  - destruct S2; [reflexivity | discriminate].
  - destruct H2 as [| j S2 Hj H2]; [discriminate |].
    simpl in Heq. injection Heq as Hij Heq.
    f_equal; [| now apply IH].
    rewrite (NoDup_nth l d) in Hnd. now apply Hnd.
Qed.

Lemma labels_distinct (feature_names : list string) :
  NoDup ("Intercept" :: feature_names ++ ["lpsa"; "train"]) ->
  NoDup ("Intercept" :: feature_names ++ ["lpsa"]) /\ NoDup feature_names /\
  ~ In "lpsa" ("Intercept" :: feature_names).
Proof.
  intros Hnd.
  assert (Heq : ("Intercept" :: feature_names ++ ["lpsa"; "train"])
                = ("Intercept" :: feature_names) ++ "lpsa" :: ["train"]) by reflexivity.
  rewrite Heq in Hnd.
  pose proof (NoDup_remove_2 _ _ _ Hnd) as Hlpsa.
  assert (Heq' : ("Intercept" :: feature_names) ++ "lpsa" :: ["train"]
                 = ("Intercept" :: feature_names ++ ["lpsa"]) ++ "train" :: []).
  { simpl. now rewrite <- app_assoc. }
  rewrite Heq' in Hnd. apply NoDup_remove_1 in Hnd. rewrite app_nil_r in Hnd.
  split; [exact Hnd |]. split.
  - inversion Hnd as [| ? ? _ Hnd1]; subst. now apply NoDup_app_remove_r in Hnd1.
  - intros Hin. apply Hlpsa. apply in_or_app. now left.
Qed.

Section Labels.
Variable sorter : Sorter.
Variable E : Estimator.
Variable feature_names : list string.
Variables (X_train : matrix) (y_train : ndarray) (X_test : matrix) (y_test : ndarray).

Abbreviation p := (shape1 X_train).
Abbreviation columns := (feature_names ++ ["lpsa"; "train"]).
Abbreviation mae_of := (subset_mae E X_train y_train X_test y_test).
Abbreviation cell :=
  (best_subset_cell sorter E columns X_train y_train X_test y_test).
Abbreviation rounded m :=
  (map (fun c => round_decimals c 3) (intercept_ E m :: coef_ E m)).

(** The names the coefficients of a model fitted on the columns [S] belong
    under. *)
Definition names_of (S : list nat) : list string :=
  map (fun j => nth j feature_names "") S.

(** The dictionary of the cell labels the [k] coefficients with the names of
    the first [k] columns of the data, whatever subset won; these are the
    names of the fitted columns exactly when the winner is [0, ..., k-1]. *)
Definition labels_right_iff_prefix (w : world) : Prop :=
  exists out w' best,
    cell w = (inr out, w') /\
    row0 (results out) = inr best /\
    best_subset_coefs out
    = zip ("Intercept" :: firstn (length (features best)) feature_names)
          (rounded (best_subset_model out)) /\
    (firstn (length (features best)) feature_names = names_of (features best)
     <-> features best = seq 0 (length (features best))).

(** With at least one column, distinct column names and every visited subset
    fitted and scored, the coefficient dictionary of the Best Subset
    Regression cell carries the names of the first [k] columns, and those are
    the names of the fitted columns if and only if the winner is the prefix
    [0, ..., k-1]. *)
Theorem best_subset_labels_right_iff_prefix w :
  0 < p ->
  length feature_names = p ->
  NoDup ("Intercept" :: columns) ->
  forallb (fun S => succeeds (mae_of S)) (enumerated p) = true ->
  labels_right_iff_prefix w.
Proof.
  intros Hp Hnames Hnd Hall.
  destruct (cell_succeeds sorter E columns X_train y_train X_test y_test w Hp Hall)
    as (best & rest & X_best & fitted & Hsorted & Hbest & Hx & Hf & Hrun).
  destruct (in_recorded E X_train y_train X_test y_test best Hall Hbest) as [Hin _].
  apply in_enumerated in Hin as (_ & Hsort & Hbound).
  destruct (labels_distinct _ Hnd) as (Hnd' & Hndf & _).
  assert (Hcoef : length (coef_ E fitted) = length (features best)).
  { rewrite (coef_shape E _ _ _ Hf). now apply take_columns_shape1 in Hx. }
  assert (Hk : length (features best) <= length feature_names).
  { rewrite Hnames.
    assert (Hsub : subseq (features best) (seq 0 p)).
    { apply subseq_seq. split; trivial.
      eapply Forall_impl; [| exact Hbound]. simpl. intros; lia. }
    apply subseq_length in Hsub. now rewrite length_seq in Hsub. }
  eexists _, _, best. split; [exact Hrun |]. cbn [results best_subset_coefs best_subset_model].
  split; [reflexivity |]. split.
  - unfold coef_dict, coef_labels. rewrite drop_last_two.
    rewrite dict_of_distinct_keys by now apply NoDup_zip_keys.
    rewrite zip_firstn. rewrite length_map. simpl length. rewrite Hcoef.
    simpl firstn. rewrite firstn_app.
    replace (length (features best) - length feature_names) with 0 by lia.
    simpl. now rewrite app_nil_r.
  - rewrite (firstn_as_nth "" _ _ Hk). unfold names_of. split.
    + intros Heq. symmetry.
      apply (map_nth_injective "" feature_names); trivial.
      * apply Forall_forall. intros j Hj. apply in_seq in Hj. lia.
      * rewrite Hnames. exact Hbound.
    + intros Heq. now rewrite <- Heq.
Qed.



End Labels.

(** The demonstration data, whose winner [[0; 2]] is not a prefix: the
    second coefficient is printed under 'lweight'. *)
Lemma best_subset_labels_right_iff_prefix_witness :
  labels_right_iff_prefix insertion_sorter marginal_regressor Demo.feature_names
    Demo.X_train Demo.y_train Demo.X_test Demo.y_test Demo.fresh.
Proof.
  apply best_subset_labels_right_iff_prefix.
  - vm_compute; lia.
  - reflexivity.
  - repeat constructor; simpl; intuition discriminate.
  - vm_compute; reflexivity.
Defined.


End LabelProperties.

(* ================================================================== *)
(** * More on the reported metrics *)

Module ReportProperties.
Import Numpy Sklearn Cell Classification Instances.
Import BestSubsetWinner Metrics.

Lemma sum_abs_diff_exact y yhat :
  Forall2 Qeq y yhat -> (sum_abs_diff y yhat == 0)%Q.
Proof.
  induction 1 as [| a b y yhat Hab _ IH]; cbn [sum_abs_diff]; [reflexivity |].
  rewrite IH. assert (Hz : (a - b == 0)%Q) by lra. rewrite Hz. reflexivity.
Qed.

Lemma count_positive {A} (l : list A) : l <> [] -> (0 < inject_Z (Z.of_nat (length l)))%Q.
Proof.
  intros Hne. destruct l; [congruence |].
  unfold Qlt. simpl. lia.
Qed.

Lemma mean_abs_diff_exact y yhat :
  y <> [] -> Forall2 Qeq y yhat -> (mean_abs_diff y yhat == 0)%Q.
Proof.
  intros Hne H. unfold mean_abs_diff. rewrite (sum_abs_diff_exact _ _ H).
  pose proof (count_positive y Hne). field. lra.
Qed.

(** Rounding to the nearest integer stays between the floor and the floor
    plus one, and keeps the order of numbers. *)
Lemma rint_bounds x : (Qfloor x <= rint x <= Qfloor x + 1)%Z.
Proof.
  unfold rint.
  destruct (x - inject_Z (Qfloor x) ?= 1 # 2)%Q; [destruct (Z.even (Qfloor x)) | |]; lia.
Qed.

Lemma rint_monotone x y : (x <= y)%Q -> (rint x <= rint y)%Z.
Proof.
  intros H. pose proof (Qfloor_resp_le _ _ H) as Hf.
  destruct (Z.eq_dec (Qfloor x) (Qfloor y)) as [He | Hne].
  - unfold rint. rewrite <- He.
    destruct (x - inject_Z (Qfloor x) ?= 1 # 2)%Q eqn:Hx;
      destruct (y - inject_Z (Qfloor x) ?= 1 # 2)%Q eqn:Hy;
      destruct (Z.even (Qfloor x)); try lia; exfalso;
      repeat match goal with
             | Hc : (_ ?= _)%Q = Eq |- _ => apply Qeq_alt in Hc
             | Hc : (_ ?= _)%Q = Lt |- _ => apply Qlt_alt in Hc
             | Hc : (_ ?= _)%Q = Gt |- _ => apply Qgt_alt in Hc
             end; lra.
  - pose proof (rint_bounds x). pose proof (rint_bounds y). lia.
Qed.

(** [np.round] keeps the order of numbers. *)
Lemma round_decimals_monotone q q' decimals :
  (q <= q')%Q -> (round_decimals q decimals <= round_decimals q' decimals)%Q.
Proof.
  intros H. unfold round_decimals.
  assert (Hz : (0 < 10 ^ Z.of_nat decimals)%Z) by (apply Z.pow_pos_nonneg; lia).
  assert (Hs : (0 < inject_Z (10 ^ Z.of_nat decimals))%Q).
  { change 0%Q with (inject_Z 0). rewrite <- Zlt_Qlt. exact Hz. }
  unfold Qdiv. apply Qmult_le_compat_r.
  - rewrite <- Zle_Qle. apply rint_monotone.
    apply Qmult_le_compat_r; [exact H | now apply Qlt_le_weak].
  - apply Qinv_le_0_compat. now apply Qlt_le_weak.
Qed.

Lemma round_decimals_zero q decimals : (q == 0)%Q -> (round_decimals q decimals == 0)%Q.
Proof.
  intros H.
  assert (H0 : (round_decimals 0 decimals == 0)%Q).
  { unfold round_decimals.
    assert (Hr : rint (0 * inject_Z (10 ^ Z.of_nat decimals)) = 0%Z).
    { unfold rint, Qmult, Qfloor. simpl. reflexivity. }
    rewrite Hr. unfold Qdiv. apply Qmult_0_l. }
  apply Qle_antisym; rewrite <- H0; apply round_decimals_monotone; lra.
Qed.

Section RegressionReports.
Variable E : Estimator.
Variables (name : string) (labels : list string).
Variables (X_train : matrix) (y_train : ndarray) (X_test : matrix) (y_test : ndarray).

Abbreviation run := (regression_cell E X_train y_train X_test y_test name labels).

(** When every test target is predicted exactly, a regression cell computes
    an error of zero and prints zero after '<name> MAE'. *)
Theorem exact_predictions_report_zero_error w fitted prediction :
  fit E X_train y_train = inr fitted ->
  predict E fitted X_test = inr prediction ->
  y_test <> [] ->
  Forall2 Qeq y_test prediction ->
  exists mae shown coefs w',
    run w = (inr (Fin mae, coefs), w') /\
    stdout w' = stdout w ++ [PrintMetric (name ++ " MAE") (Fin shown);
                             PrintText (name ++ " coefficients:")] /\
    (mae == 0)%Q /\ (shown == 0)%Q.
Proof.
  intros Hfit Hpred Hne Hexact.
  pose proof (Forall2_length Hexact) as Hlen.
  pose proof (predict_shape E _ _ _ Hpred) as Hshape. rewrite <- Hlen in Hshape.
  destruct (regression_cell_report E name labels X_train y_train X_test y_test w)
    as (fitted' & prediction' & coefs & Hfit' & Hpred' & Hcell).
  - now symmetry.
  - exact Hne.
  - rewrite Hfit. simpl. now rewrite Hpred.
  - rewrite Hfit in Hfit'. injection Hfit' as <-.
    rewrite Hpred in Hpred'. injection Hpred' as <-.
    eexists _, _, coefs, _. split; [exact Hcell |]. split; [reflexivity |].
    pose proof (mean_abs_diff_exact _ _ Hne Hexact) as Hz.
    split; [exact Hz | now apply round_decimals_zero].
Qed.

(** A regression cell that fails has printed nothing and has called [fit]
    once; the exception is the one raised by [fit], else by [predict], else
    by the subtraction [y_test - prediction]. *)
Theorem failed_regression_cell_prints_nothing w e w' :
  run w = (inl e, w') ->
  stdout w' = stdout w /\
  fit_calls w' = S (fit_calls w) /\
  (fit E X_train y_train = inl e \/
   exists fitted,
     fit E X_train y_train = inr fitted /\
     (predict E fitted X_test = inl e \/
      exists prediction,
        predict E fitted X_test = inr prediction /\
        np_sub y_test prediction = inl e)).
Proof.
  unfold regression_cell, bind, call_fit, lift, print, ret.
  destruct (fit E X_train y_train) as [e1 | fitted] eqn:Hfit.
  { intros H. injection H as <- <-. simpl. split; [| split]; trivial. now left. }
  simpl. destruct (predict E fitted X_test) as [e2 | prediction] eqn:Hpred.
  { intros H. injection H as <- <-. simpl. split; [| split]; trivial.
    right. exists fitted. split; [reflexivity | now left]. }
  simpl. destruct (np_sub y_test prediction) as [e3 | diff] eqn:Hsub; [| discriminate].
  intros H. injection H as <- <-. simpl. split; [| split]; trivial.
  right. exists fitted. split; [reflexivity |]. right. exists prediction.
  split; [exact Hpred | exact Hsub].
Qed.

End RegressionReports.

(** One column, targets twice the column: the regressor of the
    demonstrations fits the slope 2 and predicts the test target exactly. *)
Lemma exact_predictions_report_zero_error_witness :
  exists mae shown coefs w',
    regression_cell marginal_regressor
      (mkMatrix 1 [[1]; [2]]%Q) [2; 4]%Q (mkMatrix 1 [[3]]%Q) [6]%Q
      "Linear Regression" ["Intercept"; "lcavol"] Demo.fresh
    = (inr (Fin mae, coefs), w') /\
    stdout w' = [PrintMetric "Linear Regression MAE" (Fin shown);
                 PrintText "Linear Regression coefficients:"] /\
    (mae == 0)%Q /\ (shown == 0)%Q.
Proof.
  eapply (exact_predictions_report_zero_error marginal_regressor "Linear Regression"
            ["Intercept"; "lcavol"]
            (mkMatrix 1 [[1]; [2]]%Q) [2; 4]%Q (mkMatrix 1 [[3]]%Q) [6]%Q
            Demo.fresh).
  - vm_compute; reflexivity.
  - vm_compute; reflexivity.
  - discriminate.
  - constructor; [vm_compute; reflexivity | constructor].
Defined.

(** A test matrix that lacks a column: [predict] raises, nothing is printed. *)
Lemma failed_regression_cell_prints_nothing_witness :
  exists e w',
    regression_cell marginal_regressor Demo.X_train Demo.y_train Demo.X_test_short
      Demo.y_test "Linear Regression" (coef_labels Demo.columns) Demo.fresh = (inl e, w') /\
    stdout w' = [].
Proof.
  eexists _, _. split; [vm_compute; reflexivity |].
  exact (proj1 (failed_regression_cell_prints_nothing marginal_regressor
                  "Linear Regression" (coef_labels Demo.columns)
                  Demo.X_train Demo.y_train Demo.X_test_short Demo.y_test
                  Demo.fresh _ _ eq_refl)).
Defined.

(** ** The Partial Least Squares cell *)

(** The sum of [|y[j] - prediction[i]|] over all pairs [(i, j)]. *)
Definition all_pairs_abs (y predictions : ndarray) : Q :=
  np_sum (map (fun pr => np_sum (map (fun x => Qabs (x - pr)) y)) predictions).

Lemma np_sum_app a b : (np_sum (a ++ b) == np_sum a + np_sum b)%Q.
Proof.
  induction a as [| x a IH]; simpl; [lra |]. rewrite IH. lra.
Qed.

Lemma np_sum_concat (ls : list ndarray) : (np_sum (concat ls) == np_sum (map np_sum ls))%Q.
Proof.
  induction ls as [| l ls IH]; simpl; [reflexivity |].
  rewrite np_sum_app, IH. reflexivity.
Qed.

Lemma length_concat_rows {A} (ls : list (list A)) n :
  Forall (fun l => length l = n) ls -> length (concat ls) = length ls * n.
Proof.
  induction 1 as [| l ls Hl _ IH]; simpl; trivial.
  rewrite length_app, IH, Hl. reflexivity.
Qed.

Lemma flatten_column (P : matrix) :
  Forall (fun row => length row = 1) (rows P) -> flatten P = map (hd 0%Q) (rows P).
Proof.
  unfold flatten. induction 1 as [| row rs Hrow _ IH]; simpl; trivial.
  destruct row as [| x [| ? ?]]; try discriminate. simpl. now rewrite IH.
Qed.

Section PLS.
Variable E : ColumnEstimator.
Variable columns : list string.
Variables (X_train : matrix) (y_train : ndarray) (X_test : matrix) (y_test : ndarray).

(** With two test rows or more, the Partial Least Squares cell does not
    report the mean absolute error: its predictions form a column, the
    subtraction pairs every target with every prediction, and the reported
    number is the mean of [|y_test[j] - prediction[i]|] over all [n * n]
    pairs (rounded to three decimals when printed). *)
Theorem pls_cell_reports_the_mean_over_all_pairs w :
  shape0 X_test = length y_test ->
  2 <= length y_test ->
  succeeds (rbind (fit2 E X_train y_train) (fun m => predict2 E m X_test)) = true ->
  exists pls_model pls_prediction pls_mae pls_coefs w',
    fit2 E X_train y_train = inr pls_model /\
    predict2 E pls_model X_test = inr pls_prediction /\
    pls_regression_cell E columns X_train y_train X_test y_test w
    = (inr (Fin pls_mae, pls_coefs), w') /\
    (pls_mae == all_pairs_abs y_test (flatten pls_prediction)
                / inject_Z (Z.of_nat (length y_test * length y_test)))%Q /\
    stdout w' =
      stdout w ++
      [PrintMetric "Partial Least Squares Regression MAE" (Fin (round_decimals pls_mae 3));
       PrintText "Partial Least Squares Regression coefficients:"].
Proof.
  intros Hshape Hn Hrun.
  destruct (fit2 E X_train y_train) as [e | pls_model] eqn:Hfit; [discriminate |].
  simpl in Hrun.
  destruct (predict2 E pls_model X_test) as [e | P] eqn:Hpred; [discriminate |].
  destruct (predict2_shape E _ _ _ Hpred) as (Hrows & Hcol & Hone).
  rewrite Hshape in Hrows.
  set (table := map (fun row => map (fun x => (x - hd 0%Q row)%Q) y_test) (rows P)).
  assert (Hsub : np_sub_1d_2d y_test P = inr (mkMatrix (length y_test) table)).
  { unfold np_sub_1d_2d. rewrite Hcol.
    destruct (1 =? length y_test) eqn:H1; [apply Nat.eqb_eq in H1; lia |].
    reflexivity. }
  set (entries := flatten (np_abs2 (mkMatrix (length y_test) table))).
  assert (Hlen : length entries = length y_test * length y_test).
  { unfold entries, flatten, np_abs2. simpl.
    rewrite (length_concat_rows _ (length y_test)).
    - unfold table. rewrite !length_map. unfold shape0 in Hrows. now rewrite Hrows.
    - apply Forall_forall. intros l Hl. unfold table in Hl.
      apply in_map_iff in Hl as (l' & <- & Hl').
      apply in_map_iff in Hl' as (row & <- & _).
      unfold np_abs. now rewrite !length_map. }
  assert (Hsum : (np_sum entries == all_pairs_abs y_test (flatten P))%Q).
  { unfold entries, flatten at 1, np_abs2. simpl. rewrite np_sum_concat.
    rewrite (flatten_column P Hone). unfold all_pairs_abs, table, np_abs.
    rewrite !map_map.
    erewrite map_ext; [reflexivity |]. intros row. simpl. now rewrite map_map. }
  destruct entries as [| d ds] eqn:Hentries.
  { simpl in Hlen. destruct (length y_test); simpl in Hlen; lia. }
  exists pls_model, P,
         (np_sum (d :: ds) / inject_Z (Z.of_nat (length (d :: ds))))%Q.
  eexists _, _.
  split; [reflexivity |]. split; [exact Hpred |]. split; [| split].
  - unfold pls_regression_cell, bind, call_fit2, lift, print, ret.
    rewrite Hfit. simpl. rewrite Hpred, Hsub. simpl.
    unfold np_mean2. fold entries. rewrite Hentries. reflexivity.
  - rewrite Hsum, Hlen. reflexivity.
  - simpl. rewrite <- app_assoc. reflexivity.
Qed.

End PLS.

(** The demonstration data: two test rows, four pairs. *)
Lemma pls_cell_reports_the_mean_over_all_pairs_witness :
  exists pls_model pls_prediction pls_mae pls_coefs w',
    fit2 column_regressor Demo.X_train Demo.y_train = inr pls_model /\
    predict2 column_regressor pls_model Demo.X_test = inr pls_prediction /\
    pls_regression_cell column_regressor Demo.columns
      Demo.X_train Demo.y_train Demo.X_test Demo.y_test Demo.fresh
    = (inr (Fin pls_mae, pls_coefs), w') /\
    (pls_mae == all_pairs_abs Demo.y_test (flatten pls_prediction) / 4)%Q.
Proof.
  destruct (pls_cell_reports_the_mean_over_all_pairs column_regressor Demo.columns
              Demo.X_train Demo.y_train Demo.X_test Demo.y_test Demo.fresh)
    as (m & P & mae & coefs & w' & Hfit & Hpred & Hrun & Hmae & _).
  - reflexivity.
  - simpl; lia.
  - reflexivity.
  - exists m, P, mae, coefs, w'. repeat split; trivial.
Defined.

(** ** The classifier cells *)

Lemma count_equal_le a b : count_equal a b <= length a.
Proof.
  revert b. induction a as [| x a IH]; intros [| y b]; simpl; try lia.
  specialize (IH b). destruct (Qeq_bool x y); lia.
Qed.

Lemma count_equal_all a b :
  length b = length a -> (count_equal a b = length a <-> Forall2 Qeq a b).
Proof.
  revert b. induction a as [| x a IH]; intros [| y b] Hlen; simpl in *; try discriminate.
  - split; [constructor | reflexivity].
  - injection Hlen as Hlen. specialize (IH b Hlen).
    pose proof (count_equal_le a b) as Hle.
    destruct (Qeq_bool x y) eqn:Hxy; split.
    + intros H. constructor; [now apply Qeq_bool_iff | apply IH; lia].
    + intros H. inversion H; subst. simpl. f_equal. now apply IH.
    + intros H. lia.
    + intros H. inversion H as [| ? ? ? ? Hq _]; subst.
      apply Qeq_bool_iff in Hq. congruence.
Qed.

(** The class labels of the spam data: 0 and 1.  [accuracy_score] is given
    class labels on both sides. *)
Definition is_class_label (v : Q) : bool := Qeq_bool v 0 || Qeq_bool v 1.

Definition class_labels (y : ndarray) : bool := forallb is_class_label y.

Section ClassifierReports.
Variable C : Classifier.
Variable cname : string.
Variables (S_train : matrix) (s_train : ndarray) (S_test : matrix) (s_test : ndarray).

(** The classifier is fitted and predicts a class label for every test row. *)
Definition predicts_class_labels : bool :=
  match rbind (cfit C S_train s_train) (fun m => cpredict C m S_test) with
  | inr preds => class_labels preds
  | inl _ => false
  end.

(** With 0/1 test labels and a classifier that predicts 0/1 labels, the
    accuracy a classifier cell reports lies between 0 and 1, and it is 1
    exactly when every test row is given its true label. *)
Theorem reported_accuracy_is_a_fraction w :
  shape0 S_test = length s_test -> s_test <> [] ->
  class_labels s_test = true ->
  predicts_class_labels = true ->
  exists fitted preds acc w',
    cfit C S_train s_train = inr fitted /\
    cpredict C fitted S_test = inr preds /\
    class_labels preds = true /\
    classification_cell C cname S_train s_train S_test s_test w = (inr (Fin acc), w') /\
    (0 <= acc <= 1)%Q /\
    ((acc == 1)%Q <-> Forall2 Qeq s_test preds).
Proof.
  intros Hshape Hne _ Hlabels.
  assert (Hrun : succeeds (rbind (cfit C S_train s_train)
                                 (fun m => cpredict C m S_test)) = true).
  { unfold predicts_class_labels in Hlabels.
    destruct (rbind (cfit C S_train s_train) (fun m => cpredict C m S_test));
      [discriminate | reflexivity]. }
  destruct (classification_cell_report C cname S_train s_train S_test s_test w
              Hshape Hne Hrun) as (fitted & preds & acc & Hfit & Hpred & Hacc & Hcell).
  pose proof (cpredict_shape C _ _ _ Hpred) as Hlen. rewrite Hshape in Hlen.
  exists fitted, preds, acc. eexists.
  split; [exact Hfit |]. split; [exact Hpred |].
  split; [unfold predicts_class_labels in Hlabels; rewrite Hfit in Hlabels;
          simpl in Hlabels; rewrite Hpred in Hlabels; exact Hlabels |].
  split; [exact Hcell |].
  pose proof (count_positive s_test Hne) as Hn.
  pose proof (count_equal_le s_test preds) as Hle.
  assert (Hle' : (inject_Z (Z.of_nat (count_equal s_test preds))
                  <= inject_Z (Z.of_nat (length s_test)))%Q).
  { rewrite <- Zle_Qle. lia. }
  assert (Hpos : (0 <= inject_Z (Z.of_nat (count_equal s_test preds)))%Q).
  { change 0%Q with (inject_Z 0). rewrite <- Zle_Qle. lia. }
  rewrite Hacc. unfold fraction_correct.
  set (c := inject_Z (Z.of_nat (count_equal s_test preds))) in *.
  set (n := inject_Z (Z.of_nat (length s_test))) in *.
  split; [split |].
  - apply Qle_shift_div_l; [exact Hn | lra].
  - apply Qle_shift_div_r; [exact Hn | lra].
  - rewrite <- (count_equal_all s_test preds Hlen). split.
    + intros H.
      assert (Hcn : (c == n)%Q).
      { assert (Heq : (c == c / n * n)%Q) by (field; lra). rewrite Heq, H. lra. }
      unfold c, n in Hcn. rewrite inject_Z_injective in Hcn. lia.
    + intros H. unfold c, n. rewrite H. field. fold n. lra.
Qed.

End ClassifierReports.

(** The demonstration data: three test rows, two of them predicted right. *)
Lemma reported_accuracy_is_a_fraction_witness :
  exists acc w',
    classification_cell majority_classifier "LDA"
      Demo.spam_X_train Demo.spam_y_train Demo.spam_X_test Demo.spam_y_test Demo.fresh
    = (inr (Fin acc), w') /\
    (0 <= acc <= 1)%Q.
Proof.
  destruct (reported_accuracy_is_a_fraction majority_classifier "LDA"
              Demo.spam_X_train Demo.spam_y_train Demo.spam_X_test Demo.spam_y_test
              Demo.fresh)
    as (fitted & preds & acc & w' & _ & _ & _ & Hrun & Hbounds & _).
  - reflexivity.
  - discriminate.
  - reflexivity.
  - reflexivity.
  - exists acc, w'. split; trivial.
Defined.

End ReportProperties.

(* ================================================================== *)
(** * The number the Best Subset Regression cell prints *)

Module SelectionProperties.
Import Numpy Sklearn Cell BestSubsetFacts BestSubsetLoop BestSubsetWinner.
Import BestSubsetSelection ReportProperties Instances.

Section Printed.
Variable sorter : Sorter.
Variable E : Estimator.
Variable columns : list string.
Variables (X_train : matrix) (y_train : ndarray) (X_test : matrix) (y_test : ndarray).

Abbreviation p := (shape1 X_train).
Abbreviation mae_of := (subset_mae E X_train y_train X_test y_test).
Abbreviation cell :=
  (best_subset_cell sorter E columns X_train y_train X_test y_test).

(** The cell prints the test error of the winning subset rounded to three
    decimals; no visited subset has a smaller test error, and none has a
    smaller error after the same rounding. *)
Definition prints_the_least_rounded_error (w : world) : Prop :=
  exists out w' best least,
    cell w = (inr out, w') /\
    row0 (results out) = inr best /\
    MAE best = Fin least /\
    In (PrintMetric "Best Subset Regression MAE" (Fin (round_decimals least 3)))
       (stdout w') /\
    (forall S m, In S (enumerated p) -> mae_of S = inr (Fin m) ->
                 (least <= m)%Q /\
                 (round_decimals least 3 <= round_decimals m 3)%Q).

(** The number printed as 'Best Subset Regression MAE' is the least of the
    rounded test errors: rounding keeps the order, so no visited subset,
    rounded the same way, would show a smaller number. *)
Theorem printed_best_subset_error_is_least_rounded w :
  0 < p ->
  shape0 X_test = length y_test ->
  y_test <> [] ->
  forallb (fun S => succeeds (mae_of S)) (enumerated p) = true ->
  prints_the_least_rounded_error w.
Proof.
  intros Hp Hshape Hne Hall.
  destruct (cell_succeeds sorter E columns X_train y_train X_test y_test w Hp Hall)
    as (best & rest & X_best & fitted & Hsorted & Hbest & _ & _ & Hrun).
  destruct (in_recorded E X_train y_train X_test y_test best Hall Hbest) as [_ Hmae].
  destruct (subset_mae_finite E X_train y_train X_test y_test _ _ Hshape Hne Hmae)
    as (yhat & _ & Hleast).
  eexists _, _, best, _. split; [exact Hrun |]. cbn [results stdout].
  split; [reflexivity |]. split; [exact Hleast |]. split.
  - rewrite Hleast. simpl. apply in_or_app. right. simpl. auto.
  - intros S m HS Hm.
    destruct (recorded_of_subset E X_train y_train X_test y_test S _ HS Hm)
      as (r & Hr & _ & HrM).
    assert (Hle : MAE_le best r).
    { apply (sorted_head_least best rest).
      - rewrite <- Hsorted. apply sort_values_sorted.
      - rewrite <- Hsorted.
        eapply Permutation_in; [apply sort_values_perm | exact Hr]. }
    unfold MAE_le in Hle. rewrite Hleast, HrM in Hle.
    apply sort_key_le_finite in Hle. simpl in Hle.
    split; [exact Hle | now apply round_decimals_monotone].
Qed.

End Printed.

(** The demonstration data: 0.521 is printed, the least error being
    5110/9800. *)
Lemma printed_best_subset_error_is_least_rounded_witness :
  prints_the_least_rounded_error insertion_sorter marginal_regressor Demo.columns
    Demo.X_train Demo.y_train Demo.X_test Demo.y_test Demo.fresh.
Proof.
  apply printed_best_subset_error_is_least_rounded.
  - vm_compute; lia.
  - reflexivity.
  - discriminate.
  - vm_compute; reflexivity.
Defined.

End SelectionProperties.

(* ================================================================== *)
(** * More on the spam split *)

Module SpamProperties.
Import Numpy Sklearn Cell Classification Spam.

(** A file row put back together from its features and its label. *)
Definition rejoin (features_and_label : list Q * Q) : list Q :=
  fst features_and_label ++ [snd features_and_label].

Lemma rejoin_row (table : matrix) (i : nat) :
  Forall (fun row => row <> []) (rows table) ->
  i < shape0 table ->
  rejoin (nth i (rows (iloc_all_but_last table)) [],
          nth i (map (fun row => last row 0%Q) (rows table)) 0%Q)
  = nth i (rows table) [].
Proof.
  intros Hne Hi. unfold iloc_all_but_last, rejoin. simpl.
  assert (H1 : nth i (map (@removelast Q) (rows table)) []
               = removelast (nth i (rows table) [])).
  { exact (map_nth (@removelast Q) (rows table) [] i). }
  assert (H2 : nth i (map (fun row => last row 0%Q) (rows table)) 0%Q
               = last (nth i (rows table) []) 0%Q).
  { exact (map_nth (fun row => last row 0%Q) (rows table) [] i). }
  rewrite H1, H2.
  symmetry. apply app_removelast_last.
  rewrite Forall_forall in Hne. apply Hne. now apply nth_In.
Qed.

Lemma rejoin_selected (table : matrix) (indices : list nat) :
  Forall (fun row => row <> []) (rows table) ->
  Forall (fun i => i < shape0 table) indices ->
  map rejoin
      (combine (rows (take_rows (iloc_all_but_last table) indices))
               (take (map (fun row => last row 0%Q) (rows table)) indices))
  = map (fun i => nth i (rows table) []) indices.
Proof.
  intros Hne Hidx. unfold take_rows, take. simpl rows at 1.
  induction Hidx as [| i indices Hi _ IH]; simpl; trivial.
  f_equal; [| exact IH].
  now apply rejoin_row.
Qed.

Lemma rows_by_index {A} (d : A) (l : list A) :
  map (fun i => nth i l d) (seq 0 (length l)) = l.
Proof.
  induction l as [| a l IH]; simpl; trivial.
  f_equal. rewrite <- seq_shift, map_map. exact IH.
Qed.

Lemma test_count_below n : 2 <= n -> Z.to_nat (Qceiling ((2 # 10) * inject_Z (Z.of_nat n))) < n.
Proof.
  intros Hn.
  assert (Hle : (Qceiling ((2 # 10) * inject_Z (Z.of_nat n)) <= Z.of_nat n - 1)%Z).
  { rewrite <- (Qceiling_Z (Z.of_nat n - 1)). apply Qceiling_resp_le.
    unfold Z.sub. rewrite inject_Z_plus, inject_Z_opp. change (inject_Z 1) with 1%Q.
    assert (H2 : (2 <= inject_Z (Z.of_nat n))%Q).
    { change 2%Q with (inject_Z 2). rewrite <- Zle_Qle. lia. }
    lra. }
  lia.
Qed.

Section Split.
Variable L : Library.

(** On a file of at least two rows, each with at least one column, the first
    cell returns, and it keeps every row whole: put back together, the
    features and label of the test rows followed by those of the training
    rows are the rows of the file, shuffled; the test set holds
    [ceil(0.2 * n)] of the [n] rows. *)
Theorem spam_split_keeps_every_row (spam_txt : string) (table : matrix)
  (global : rng_state L) :
  read_csv L spam_txt = inr table ->
  0 < shape1 table ->
  Forall (fun row => row <> []) (rows table) ->
  2 <= shape0 table ->
  exists s,
    load_and_split L spam_txt global = inr s /\
    Permutation
      (map rejoin (combine (rows (X_test s)) (y_test s)) ++
       map rejoin (combine (rows (X_train s)) (y_train s)))
      (rows table) /\
    shape0 (X_test s)
    = Z.to_nat (Qceiling ((2 # 10) * inject_Z (Z.of_nat (shape0 table)))) /\
    shape0 (X_train s) + shape0 (X_test s) = shape0 table.
Proof.
  intros Hread Hcols Hne Hrows.
  unfold load_and_split. rewrite Hread. simpl.
  unfold iloc_last. destruct (shape1 table =? 0) eqn:H0.
  { apply Nat.eqb_eq in H0. lia. }
  simpl. unfold train_test_split. cbv zeta.
  assert (Hn : shape0 (iloc_all_but_last table) = shape0 table).
  { unfold shape0, iloc_all_but_last. simpl. apply length_map. }
  rewrite Hn. rewrite length_map. fold (shape0 table). rewrite Nat.eqb_refl. simpl.
  set (n := shape0 table) in *.
  set (n_test := Z.to_nat (Qceiling ((2 # 10) * inject_Z (Z.of_nat n)))).
  pose proof (test_count_below n Hrows) as Hlt. fold n_test in Hlt.
  destruct (n - n_test =? 0) eqn:Hz; [apply Nat.eqb_eq in Hz; lia |].
  pose (shuffled := permutation L (RandomState L 42) n).
  assert (Hperm : Permutation (seq 0 n) shuffled) by apply permutation_spec.
  assert (Hlen : length shuffled = n).
  { apply Permutation_length in Hperm. now rewrite length_seq in Hperm. }
  assert (Hall : firstn (n - n_test) (skipn n_test shuffled) = skipn n_test shuffled).
  { apply firstn_all2. rewrite length_skipn. lia. }
  assert (Hidx : Forall (fun i => i < n) shuffled).
  { apply Forall_forall. intros i Hi.
    apply (Permutation_in _ (Permutation_sym Hperm)) in Hi. apply in_seq in Hi. lia. }
  eexists. split; [reflexivity |]. cbn [X_test X_train y_test y_train].
  fold shuffled. rewrite Hall. split; [| split].
  - rewrite !rejoin_selected; trivial.
    + rewrite <- map_app, firstn_skipn.
      eapply Permutation_trans; [apply Permutation_map, Permutation_sym, Hperm |].
      unfold n, shape0. now rewrite rows_by_index.
    + rewrite <- (firstn_skipn n_test shuffled) in Hidx.
      apply Forall_app in Hidx. tauto.
    + rewrite <- (firstn_skipn n_test shuffled) in Hidx.
      apply Forall_app in Hidx. tauto.
  - unfold shape0, take_rows. simpl. rewrite length_map, length_firstn. lia.
  - unfold shape0, take_rows. simpl.
    rewrite !length_map, length_firstn, length_skipn. lia.
Qed.

End Split.

(** The demonstration table: ten rows, two of them held out. *)
Lemma spam_split_keeps_every_row_witness :
  exists s,
    load_and_split (rotation_library (fun _ => ok Demo.spam_txt)) "spam.txt" 0 = inr s /\
    shape0 (X_test s) = 2 /\
    shape0 (X_train s) + shape0 (X_test s) = 10.
Proof.
  destruct (spam_split_keeps_every_row (rotation_library (fun _ => ok Demo.spam_txt))
              "spam.txt" Demo.spam_txt 0 eq_refl)
    as (s & Hrun & _ & Htest & Hall).
  - vm_compute; lia.
  - repeat constructor; discriminate.
  - vm_compute; lia.
  - exists s. split; [exact Hrun |]. split; [exact Htest | exact Hall].
Defined.

End SpamProperties.
